(** * photogrammetry.py: two-camera triangulation

    A shallow embedding of [CameraModel] and [DoubleCameraModel] from
    [src/photogrammetry.py], with the properties of its specification.

    Numbers.  The program computes in IEEE binary64 through numpy.  Here
    every float is an exact real ([R]), so the statements are about the
    arithmetic the program performs, free of rounding.  The one place where
    the reals have no counterpart of a float result is a division by zero:
    numpy returns [inf] or [nan] there (with a RuntimeWarning, no
    exception).  That outcome is kept apart as [NonFinite].

    Truncation.  [int] is not continuous: a float that falls just below an
    integer which the exact real reaches is cut one lower.  The statements
    about returned pixels therefore keep the expression the code computes
    under [int], or bound the pixel, and simplify a real value under [int]
    only away from the integers.

    Outcomes.  A call either returns a value, raises a Python exception, or
    leaves the finite reals; [result] has one constructor for each.  What
    Python does with an [inf] or a [nan] afterwards is not modelled: once a
    computation is [NonFinite] it stays so. *)

From Stdlib Require Import Reals Lra Lia ZArith String.
From Stdlib Require Import List.
Import ListNotations.

Local Open Scope R_scope.

(** ** Exceptions and outcomes *)

(** The only exception the two classes raise themselves is [ValueError],
    told apart by its message. *)
Inductive exn : Type :=
| ValueError (msg : string).

Definition msg_negative : string :=
  "Coordinate values must be greater than zero in default CS."%string.
Definition msg_exceeds : string :=
  "Coordinate values must not exceed frame width and height."%string.
Definition msg_not_cross : string :=
  "Incorrect coordinate values. Lines of sight of cameras do not cross."%string.

(** The specification's names for the two kinds of [ValueError]. *)
Definition RangeError (e : exn) : Prop :=
  e = ValueError msg_negative \/ e = ValueError msg_exceeds.
Definition GeometryError : exn := ValueError msg_not_cross.

Inductive result (A : Type) : Type :=
| Ok (a : A)
| Raise (e : exn)
| NonFinite.

Arguments Ok {A} a.
Arguments Raise {A} e.
Arguments NonFinite {A}.

Definition bind {A B : Type} (r : result A) (k : A -> result B) : result B :=
  match r with
  | Ok a => k a
  | Raise e => Raise e
  | NonFinite => NonFinite
  end.

Notation "x <- r ;; k" := (bind r (fun x => k))
  (at level 61, r at next level, right associativity).
Notation "' p <- r ;; k" := (bind r (fun x => match x with p => k end))
  (at level 61, p pattern, r at next level, right associativity).

(** [a / b] on numpy floats: finite when [b] is not zero. *)
Definition np_div (a b : R) : result R :=
  if Req_dec_T b 0 then NonFinite else Ok (a / b).

(** [int(x)] on a float: the fractional part is dropped, towards zero. *)
Definition int (r : R) : Z :=
  if Rle_dec 0 r then Int_part r else (- Int_part (- r))%Z.

(** ** 3x3 matrices, as numpy arrays of rows *)

Definition vec3 : Type := R * R * R.
Definition mat3 : Type := vec3 * vec3 * vec3.

Definition I3 : mat3 := ((1, 0, 0), (0, 1, 0), (0, 0, 1)).

(** [v @ m] for a row vector [v]. *)
Definition vecmat (v : vec3) (m : mat3) : vec3 :=
  let '(x, y, z) := v in
  let '((a, b, c), (d, e, f), (g, h, i)) := m in
  (x * a + y * d + z * g, x * b + y * e + z * h, x * c + y * f + z * i).

(** [m @ n]. *)
Definition matmul (m n : mat3) : mat3 :=
  let '(r1, r2, r3) := m in (vecmat r1 n, vecmat r2 n, vecmat r3 n).

(** [v[:2]]. *)
Definition take2 (v : vec3) : R * R := let '(x, y, _) := v in (x, y).

Definition det3 (m : mat3) : R :=
  let '((a, b, c), (d, e, f), (g, h, i)) := m in
  a * (e * i - f * h) - b * (d * i - f * g) + c * (d * h - e * g).

(** [np.linalg.inv]: in exact arithmetic the inverse is the adjugate over
    the determinant.  numpy raises [LinAlgError] on a singular matrix; the
    only matrix inverted by the program has determinant [-1]
    (lemma [det_T_c]). *)
Definition linalg_inv (m : mat3) : mat3 :=
  let '((a, b, c), (d, e, f), (g, h, i)) := m in
  let k := det3 m in
  (((e * i - f * h) / k, (c * h - b * i) / k, (b * f - c * e) / k),
   ((f * g - d * i) / k, (a * i - c * g) / k, (c * d - a * f) / k),
   ((d * h - e * g) / k, (b * g - a * h) / k, (a * e - b * d) / k)).

(** ** CameraModel *)

(** The attributes given to [__init__].  [T_c] and [T_d] are set once by
    [__init__] from these and never assigned again, so they are functions
    of the record. *)
Record CameraModel : Type := {
  width : R;
  height : R;
  aov : R
}.

Definition T_c (c : CameraModel) : mat3 :=
  ((1, 0, 0),
   (0, -1, 0),
   (- width c / 2, height c / 2, 1)).

Definition T_d (c : CameraModel) : mat3 := linalg_inv (T_c c).

Definition to_central (c : CameraModel) (x0 y0 : R) : result (R * R) :=
  if Rlt_dec x0 0 then Raise (ValueError msg_negative)
  else if Rlt_dec y0 0 then Raise (ValueError msg_negative)
  else if Rgt_dec x0 (width c) then Raise (ValueError msg_exceeds)
  else if Rgt_dec y0 (height c) then Raise (ValueError msg_exceeds)
  else Ok (take2 (vecmat (x0, y0, 1) (T_c c))).

Definition to_default (c : CameraModel) (x y : R) : R * R :=
  take2 (vecmat (x, y, 1) (T_d c)).

Definition obj_angle (c : CameraModel) (x0 y0 : R) : result R :=
  ' (x, y) <- to_central c x0 y0 ;;
  np_div (tan (aov c / 2) * x * 2) (width c).

Definition obj_angle_err (c : CameraModel) : result R :=
  np_div (tan (aov c / 2) * 2) (width c).

(** ** DoubleCameraModel *)

Record DoubleCameraModel : Type := {
  left : CameraModel;
  right : CameraModel;
  center : CameraModel;
  d : R
}.

Definition coords : Type := R * R.

Definition obj_dist (m : DoubleCameraModel) (left_coords right_coords : coords)
  : result R :=
  tl <- obj_angle (left m) (fst left_coords) (snd left_coords) ;;
  tr <- obj_angle (right m) (fst right_coords) (snd right_coords) ;;
  if Rle_dec (tl - tr) 0 then Raise (ValueError msg_not_cross)
  else np_div (d m) (tl - tr).

Definition obj_dist_err (m : DoubleCameraModel) (left_coords right_coords : coords)
  : result R :=
  tl <- obj_angle (left m) (fst left_coords) (snd left_coords) ;;
  tr <- obj_angle (right m) (fst right_coords) (snd right_coords) ;;
  tl_err <- obj_angle_err (left m) ;;
  tr_err <- obj_angle_err (right m) ;;
  dd_dtan <- np_div (d m) ((tl - tr) ^ 2) ;;
  Ok (sqrt ((dd_dtan * tl_err) ^ 2 + (dd_dtan * tr_err) ^ 2)).

(** [np.average] of a two-element list. *)
Definition average2 (a b : R) : R := (a + b) / 2.

Definition obj_coords (m : DoubleCameraModel) (left_coords right_coords : coords)
  : result (Z * Z * R) :=
  dist <- obj_dist m left_coords right_coords ;;
  tl <- obj_angle (left m) (fst left_coords) (snd left_coords) ;;
  half <- np_div (d m / 2) dist ;;
  let angle := tl - half in
  q <- np_div angle (tan (aov (center m) / 2)) ;;
  let x := q * width (center m) / 2 in
  let y0 := average2 (snd left_coords) (snd right_coords) in
  let '(x0, _) := to_default (center m) x 0 in
  Ok (int x0, int y0, dist).

(** The configuration at the bottom of the script:
    [cam = CameraModel(2048, 1080, np.radians(78))] and
    [dcam = DoubleCameraModel(cam, cam, cam, 100)]. *)
Definition radians (deg : R) : R := deg * PI / 180.
Definition cam : CameraModel := {| width := 2048; height := 1080; aov := radians 78 |}.
Definition dcam : DoubleCameraModel :=
  {| left := cam; right := cam; center := cam; d := 100 |}.

(** A pixel pair inside the frame, borders included. *)
Definition in_frame (c : CameraModel) (p : coords) : Prop :=
  0 <= fst p <= width c /\ 0 <= snd p <= height c.

(** ** The script: one entry typed at the prompt *)

Definition msg_not_integer : string :=
  "Entered coordinates must be integer."%string.

(** What the script prints for an entry: the three values returned by
    [obj_coords], or a message.  [FloatFault] stands for [int()] applied to
    an [inf] or a [nan]. *)
Inductive printed : Type :=
| PrintCoords (x0 y0 : Z) (dist : R)
| PrintMessage (msg : string)
| FloatFault.

Section Script.

(** [int(x)] on one token of the line; [None] is its [ValueError]. *)
Variable py_int : string -> option Z.

(** [[int(x) for x in coord_inp.split()]]: the tokens are converted in
    order and the first one that fails raises. *)
Fixpoint ints (tokens : list string) : option (list Z) :=
  match tokens with
  | [] => Some []
  | t :: rest =>
      match py_int t with
      | None => None
      | Some z =>
          match ints rest with
          | None => None
          | Some zs => Some (z :: zs)
          end
      end
  end.

(** [np.array(...).reshape((2, 2))]: two rows of two, or [ValueError] when
    the list has not four elements. *)
Definition reshape22 (zs : list Z) : option (coords * coords) :=
  match zs with
  | [a; b; c; e] => Some ((IZR a, IZR b), (IZR c, IZR e))
  | _ => None
  end.

(** The inner [try]: the three values returned by [obj_coords] on the two
    rows are printed, a [ValueError] being printed as its message. *)
Definition print_coords (m : DoubleCameraModel) (l r : coords) : printed :=
  match obj_coords m l r with
  | Ok (x0, y0, dist) => PrintCoords x0 y0 dist
  | Raise (ValueError msg) => PrintMessage msg
  | NonFinite => FloatFault
  end.

(** The branch [len(sys.argv) == 1], from the tokens of the line on. *)
Definition manual_entry (tokens : list string) : printed :=
  match ints tokens with
  | None => PrintMessage msg_not_integer
  | Some zs =>
      match reshape22 zs with
      | None => PrintMessage msg_not_integer
      | Some (l, r) => print_coords dcam l r
      end
  end.

End Script.

(** ** A second rig *)

(** Two cameras with a field of view of 90 degrees and a centre camera
    with a narrower one, [tan (aov / 2) = 1 / 2]: with it the abscissa
    computed by [obj_coords] can be negative. *)
Definition wide : CameraModel :=
  {| width := 2048; height := 1080; aov := PI / 2 |}.
Definition narrow : CameraModel :=
  {| width := 2048; height := 1080; aov := 2 * atan (1 / 2) |}.
Definition rig : DoubleCameraModel :=
  {| left := wide; right := wide; center := narrow; d := 100 |}.

(** Case analysis on the four comparisons of [to_central], in the order
    the code makes them. *)
Ltac frame_cases c x0 y0 :=
  destruct (Rlt_dec x0 0);
  [|destruct (Rlt_dec y0 0);
    [|destruct (Rgt_dec x0 (width c));
      [|destruct (Rgt_dec y0 (height c))]]].

(** ** The two transforms *)

Lemma det_T_c (c : CameraModel) : det3 (T_c c) = -1.
Proof. unfold det3, T_c. ring. Qed.

Lemma T_d_closed (c : CameraModel) :
  T_d c = ((1, 0, 0), (0, -1, 0), (width c / 2, height c / 2, 1)).
Proof.
  unfold T_d, linalg_inv. rewrite det_T_c. unfold T_c.
  repeat (f_equal; try field).
Qed.

Lemma T_c_T_d (c : CameraModel) : matmul (T_c c) (T_d c) = I3.
Proof.
  rewrite T_d_closed. unfold matmul, T_c, vecmat, I3.
  repeat (f_equal; try field).
Qed.

Lemma T_d_T_c (c : CameraModel) : matmul (T_d c) (T_c c) = I3.
Proof.
  rewrite T_d_closed. unfold matmul, T_c, vecmat, I3.
  repeat (f_equal; try field).
Qed.

Lemma to_default_closed (c : CameraModel) (x y : R) :
  to_default c x y = (x + width c / 2, height c / 2 - y).
Proof.
  unfold to_default. rewrite T_d_closed. unfold vecmat, take2.
  f_equal; field.
Qed.

Lemma to_central_ok (c : CameraModel) (x0 y0 : R) :
  0 <= x0 <= width c -> 0 <= y0 <= height c ->
  to_central c x0 y0 = Ok (x0 - width c / 2, height c / 2 - y0).
Proof.
  intros Hx Hy. unfold to_central. frame_cases c x0 y0; try lra.
  unfold T_c, vecmat, take2. do 2 f_equal; field.
Qed.

Lemma to_central_raises (c : CameraModel) (x0 y0 : R) :
  x0 < 0 \/ y0 < 0 \/ x0 > width c \/ y0 > height c ->
  exists e, to_central c x0 y0 = Raise e /\ RangeError e.
Proof.
  intros H. unfold to_central, RangeError.
  frame_cases c x0 y0; eauto. lra.
Qed.

Lemma to_central_inv (c : CameraModel) (x0 y0 : R) (p : R * R) :
  to_central c x0 y0 = Ok p -> 0 <= x0 <= width c /\ 0 <= y0 <= height c.
Proof.
  unfold to_central. frame_cases c x0 y0; try discriminate.
  intros _. lra.
Qed.

Lemma to_central_Raise_inv (c : CameraModel) (x0 y0 : R) (e : exn) :
  to_central c x0 y0 = Raise e ->
  RangeError e /\ (x0 < 0 \/ y0 < 0 \/ x0 > width c \/ y0 > height c).
Proof.
  unfold to_central, RangeError.
  frame_cases c x0 y0; intros [= <-]; tauto.
Qed.

Lemma to_central_finite (c : CameraModel) (x0 y0 : R) :
  to_central c x0 y0 <> NonFinite.
Proof. unfold to_central. frame_cases c x0 y0; discriminate. Qed.

Lemma RangeError_not_GeometryError (e : exn) : RangeError e -> e <> GeometryError.
Proof. intros [-> | ->]; discriminate. Qed.

Lemma np_div_ok (a b : R) : b <> 0 -> np_div a b = Ok (a / b).
Proof. intros Hb. unfold np_div. destruct (Req_dec_T b 0); [contradiction|reflexivity]. Qed.

Lemma np_div_inv (a b v : R) : np_div a b = Ok v -> b <> 0 /\ v = a / b.
Proof.
  unfold np_div. destruct (Req_dec_T b 0); [discriminate|].
  intros [= <-]. auto.
Qed.

Lemma np_div_zero (a : R) : np_div a 0 = NonFinite.
Proof. unfold np_div. destruct (Req_dec_T 0 0); [reflexivity|contradiction]. Qed.

Lemma np_div_not_raise (a b : R) (e : exn) : np_div a b <> Raise e.
Proof. unfold np_div. destruct (Req_dec_T b 0); discriminate. Qed.

(** ** Bearings *)

Lemma obj_angle_ok (c : CameraModel) (x0 y0 : R) :
  width c <> 0 -> in_frame c (x0, y0) ->
  obj_angle c x0 y0 = Ok (tan (aov c / 2) * (x0 - width c / 2) * 2 / width c).
Proof.
  intros Hw [Hx Hy]. unfold obj_angle.
  rewrite (to_central_ok c x0 y0 Hx Hy). simpl.
  now apply np_div_ok.
Qed.

Lemma obj_angle_inv (c : CameraModel) (x0 y0 t : R) :
  obj_angle c x0 y0 = Ok t ->
  in_frame c (x0, y0) /\ width c <> 0 /\
  t = tan (aov c / 2) * (x0 - width c / 2) * 2 / width c.
Proof.
  unfold obj_angle. intros H.
  destruct (to_central c x0 y0) as [[x y]| |] eqn:E; simpl in H; try discriminate.
  pose proof (to_central_inv _ _ _ _ E) as [Hx Hy].
  rewrite (to_central_ok c x0 y0 Hx Hy) in E. injection E as <- <-.
  apply np_div_inv in H as [Hw ->]. repeat split; simpl; tauto || lra.
Qed.

Lemma obj_angle_Raise_inv (c : CameraModel) (x0 y0 : R) (e : exn) :
  obj_angle c x0 y0 = Raise e -> RangeError e /\ ~ in_frame c (x0, y0).
Proof.
  unfold obj_angle. intros H.
  destruct (to_central c x0 y0) as [[x y]| |] eqn:E; cbn [bind] in H.
  - now apply np_div_not_raise in H.
  - injection H as ->. apply to_central_Raise_inv in E as [He Hout].
    split; [exact He|]. unfold in_frame. simpl. lra.
  - discriminate.
Qed.

Lemma obj_angle_err_ok (c : CameraModel) :
  width c <> 0 -> obj_angle_err c = Ok (tan (aov c / 2) * 2 / width c).
Proof. intros Hw. now apply np_div_ok. Qed.

Lemma tan_half_aov_pos (c : CameraModel) :
  0 < aov c < PI -> 0 < tan (aov c / 2).
Proof. intros H. apply tan_gt_0; lra. Qed.

Lemma tan_half_cam : 0 < tan (aov cam / 2).
Proof.
  apply tan_half_aov_pos. simpl. unfold radians.
  pose proof PI_RGT_0. lra.
Qed.

(** ** Truncation *)

Lemma int_nonneg (r : R) (z : Z) :
  0 <= r -> IZR z <= r < IZR z + 1 -> int r = z.
Proof.
  intros H0 Hz. unfold int. destruct (Rle_dec 0 r); [|contradiction].
  symmetry. apply Int_part_spec. lra.
Qed.

Lemma int_neg (r : R) (z : Z) :
  r < 0 -> IZR z - 1 < r <= IZR z -> int r = z.
Proof.
  intros H0 Hz. unfold int. destruct (Rle_dec 0 r); [lra|].
  rewrite <- (Int_part_spec (- r) (- z)).
  - lia.
  - rewrite opp_IZR. lra.
Qed.

Lemma int_bounds_nonneg (r : R) :
  0 <= r -> IZR (int r) <= r < IZR (int r) + 1.
Proof.
  intros H0. unfold int. destruct (Rle_dec 0 r); [|contradiction].
  pose proof (base_Int_part r). lra.
Qed.

Lemma int_bounds_neg (r : R) :
  r < 0 -> IZR (int r) - 1 < r <= IZR (int r).
Proof.
  intros H0. unfold int. destruct (Rle_dec 0 r); [lra|].
  pose proof (base_Int_part (- r)). rewrite opp_IZR. lra.
Qed.

(** ** CameraModel: properties *)

(** C4.  Default -> Central -> Default is the identity on the frame: for
    every camera and every pixel pair with [0 <= x0 <= width] and
    [0 <= y0 <= height], [to_central] returns a pair and [to_default] maps
    it back to [(x0, y0)], exactly. *)
Theorem to_default_to_central (c : CameraModel) (x0 y0 : R) :
  0 < width c -> 0 < height c ->
  0 <= x0 <= width c -> 0 <= y0 <= height c ->
  exists x y, to_central c x0 y0 = Ok (x, y) /\ to_default c x y = (x0, y0).
Proof.
  intros _ _ Hx Hy.
  exists (x0 - width c / 2), (height c / 2 - y0). split.
  - now apply to_central_ok.
  - rewrite to_default_closed. f_equal; field.
Qed.

Lemma to_default_to_central_witness :
  exists x y, to_central cam 1045 7 = Ok (x, y) /\ to_default cam x y = (1045, 7).
Proof.
  apply (to_default_to_central cam 1045 7); simpl; lra.
Defined.

(** C5.  On the frame, [obj_angle] is [tan (aov / 2)] times
    [2 * (x0 - width / 2) / width]: linear in the Central-CS offset.  At the
    horizontal centre it is [0] and at the right border it is
    [tan (aov / 2)], whatever the in-range [y]. *)
Theorem obj_angle_linear (c : CameraModel) :
  0 < width c ->
  (forall x0 y0, in_frame c (x0, y0) ->
     obj_angle c x0 y0 = Ok (tan (aov c / 2) * (2 * (x0 - width c / 2) / width c))) /\
  (forall y, 0 <= y <= height c -> obj_angle c (width c / 2) y = Ok 0) /\
  (forall y, 0 <= y <= height c -> obj_angle c (width c) y = Ok (tan (aov c / 2))).
Proof.
  intros Hw. assert (Hw0 : width c <> 0) by lra.
  repeat split.
  - intros x0 y0 Hin. rewrite (obj_angle_ok c x0 y0 Hw0 Hin). f_equal. now field.
  - intros y Hy. rewrite obj_angle_ok; trivial.
    + f_equal. now field.
    + split; simpl; lra.
  - intros y Hy. rewrite obj_angle_ok; trivial.
    + f_equal. now field.
    + split; simpl; lra.
Qed.

Lemma obj_angle_linear_witness :
  obj_angle cam 1045 0 = Ok (tan (aov cam / 2) * (2 * (1045 - width cam / 2) / width cam)) /\
  obj_angle cam (width cam / 2) 540 = Ok 0 /\
  obj_angle cam (width cam) 540 = Ok (tan (aov cam / 2)).
Proof.
  assert (Hw : 0 < width cam) by (simpl; lra).
  destruct (obj_angle_linear cam Hw) as (Hlin & Hmid & Hedge).
  repeat split.
  - apply Hlin. split; simpl; lra.
  - apply Hmid. simpl; lra.
  - apply Hedge. simpl; lra.
Defined.

(** C6.  [to_central] accepts the corners [(0, 0)] and [(width, height)],
    and raises a range error exactly when [x0 < 0], [y0 < 0], [x0 > width]
    or [y0 > height]; so it rejects [(-1, 0)], [(0, -1)], [(width + 1, 0)]
    and [(0, height + 1)]. *)
Theorem to_central_range (c : CameraModel) :
  0 < width c -> 0 < height c ->
  to_central c 0 0 = Ok (- (width c / 2), height c / 2) /\
  to_central c (width c) (height c) = Ok (width c / 2, - (height c / 2)) /\
  (forall x0 y0,
     (exists e, to_central c x0 y0 = Raise e /\ RangeError e) <->
     (x0 < 0 \/ y0 < 0 \/ x0 > width c \/ y0 > height c)) /\
  (forall x0 y0 e, to_central c x0 y0 = Raise e -> RangeError e) /\
  (exists e, to_central c (-1) 0 = Raise e /\ RangeError e) /\
  (exists e, to_central c 0 (-1) = Raise e /\ RangeError e) /\
  (exists e, to_central c (width c + 1) 0 = Raise e /\ RangeError e) /\
  (exists e, to_central c 0 (height c + 1) = Raise e /\ RangeError e).
Proof.
  intros Hw Hh. repeat apply conj.
  - rewrite to_central_ok by lra. do 2 f_equal; field.
  - rewrite to_central_ok by lra. do 2 f_equal; field.
  - intros x0 y0. split; [|apply to_central_raises].
    intros (e & He & _). now apply to_central_Raise_inv in He.
  - intros x0 y0 e He. now apply to_central_Raise_inv in He.
  - apply to_central_raises; lra.
  - apply to_central_raises; lra.
  - apply to_central_raises; lra.
  - apply to_central_raises; lra.
Qed.

Lemma to_central_range_witness :
  to_central cam 0 0 = Ok (- (width cam / 2), height cam / 2) /\
  to_central cam (width cam) (height cam) = Ok (width cam / 2, - (height cam / 2)) /\
  (exists e, to_central cam (-1) 0 = Raise e /\ RangeError e) /\
  (exists e, to_central cam 2049 0 = Raise e /\ RangeError e).
Proof.
  assert (Hw : 0 < width cam) by (simpl; lra).
  assert (Hh : 0 < height cam) by (simpl; lra).
  destruct (to_central_range cam Hw Hh) as (H00 & Hwh & Hiff & _ & Hm1 & _).
  repeat split; trivial.
  apply Hiff. simpl. lra.
Defined.

(** C8.  [to_default] checks nothing and cannot raise: for all reals
    [(x, y)], inside the frame or not, it returns the affine image
    [(x + width / 2, height / 2 - y)], the point that the Default -> Central
    matrix sends back to [(x, y)]. *)
Theorem to_default_total (c : CameraModel) (x y : R) :
  to_default c x y = (x + width c / 2, height c / 2 - y) /\
  take2 (vecmat (fst (to_default c x y), snd (to_default c x y), 1) (T_c c)) = (x, y).
Proof.
  rewrite to_default_closed. split; [reflexivity|].
  unfold T_c, vecmat, take2. simpl. f_equal; field.
Qed.

(** ** DoubleCameraModel: how the three queries unfold *)

Section Queries.

Variable m : DoubleCameraModel.
Variables l r : coords.
Variables tl tr : R.
Hypothesis Htl : obj_angle (left m) (fst l) (snd l) = Ok tl.
Hypothesis Htr : obj_angle (right m) (fst r) (snd r) = Ok tr.

Lemma obj_dist_ok : 0 < tl - tr -> obj_dist m l r = Ok (d m / (tl - tr)).
Proof.
  intros H. unfold obj_dist. rewrite Htl, Htr. simpl.
  destruct (Rle_dec (tl - tr) 0); [lra|].
  apply np_div_ok. lra.
Qed.

Lemma obj_dist_raises : tl - tr <= 0 -> obj_dist m l r = Raise GeometryError.
Proof.
  intros H. unfold obj_dist. rewrite Htl, Htr. simpl.
  destruct (Rle_dec (tl - tr) 0); [reflexivity|contradiction].
Qed.

Lemma obj_dist_err_ok :
  tl - tr <> 0 -> width (left m) <> 0 -> width (right m) <> 0 ->
  obj_dist_err m l r =
  Ok (sqrt ((d m / (tl - tr) ^ 2 * (tan (aov (left m) / 2) * 2 / width (left m))) ^ 2 +
            (d m / (tl - tr) ^ 2 * (tan (aov (right m) / 2) * 2 / width (right m))) ^ 2)).
Proof.
  intros H Hl Hr. unfold obj_dist_err. rewrite Htl, Htr. simpl.
  rewrite !obj_angle_err_ok by assumption. simpl.
  rewrite np_div_ok; [reflexivity|].
  intros E. apply H. nra.
Qed.

(** Equal bearings: the denominator [(tl - tr) ** 2] is zero and numpy
    returns [inf]; nothing is raised. *)
Lemma obj_dist_err_parallel :
  tl - tr = 0 -> width (left m) <> 0 -> width (right m) <> 0 ->
  obj_dist_err m l r = NonFinite.
Proof.
  intros H Hl Hr. unfold obj_dist_err. rewrite Htl, Htr. cbn [bind].
  rewrite !obj_angle_err_ok by assumption. cbn [bind].
  rewrite H. replace (0 ^ 2) with 0 by ring. now rewrite np_div_zero.
Qed.

Lemma obj_coords_ok :
  0 < tl - tr -> d m <> 0 -> tan (aov (center m) / 2) <> 0 ->
  let dist := d m / (tl - tr) in
  let x := (tl - d m / 2 / dist) / tan (aov (center m) / 2) * width (center m) / 2 in
  obj_coords m l r =
  Ok (int (fst (to_default (center m) x 0)),
      int (average2 (snd l) (snd r)), dist).
Proof.
  intros H Hd Ht dist x. unfold obj_coords.
  rewrite (obj_dist_ok H), Htl. simpl.
  rewrite np_div_ok.
  2:{ apply Rmult_integral_contrapositive_currified; [assumption|].
      apply Rinv_neq_0_compat. lra. }
  simpl. rewrite np_div_ok by assumption. simpl.
  fold dist. fold x. now destruct (to_default (center m) x 0).
Qed.

End Queries.

Lemma obj_dist_inv (m : DoubleCameraModel) (l r : coords) (D : R) :
  obj_dist m l r = Ok D ->
  exists tl tr,
    obj_angle (left m) (fst l) (snd l) = Ok tl /\
    obj_angle (right m) (fst r) (snd r) = Ok tr /\
    0 < tl - tr /\ D = d m / (tl - tr).
Proof.
  unfold obj_dist. intros H.
  destruct (obj_angle (left m) (fst l) (snd l)) as [tl| |]; try discriminate.
  destruct (obj_angle (right m) (fst r) (snd r)) as [tr| |]; try discriminate.
  simpl in H. destruct (Rle_dec (tl - tr) 0); [discriminate|].
  apply np_div_inv in H as [_ ->].
  exists tl, tr. repeat split; trivial. lra.
Qed.

Lemma obj_coords_inv (m : DoubleCameraModel) (l r : coords) (x0 y0 : Z) (D : R) :
  obj_coords m l r = Ok (x0, y0, D) ->
  obj_dist m l r = Ok D /\
  y0 = int (average2 (snd l) (snd r)) /\
  exists tl half q,
    obj_angle (left m) (fst l) (snd l) = Ok tl /\
    np_div (d m / 2) D = Ok half /\
    np_div (tl - half) (tan (aov (center m) / 2)) = Ok q /\
    x0 = int (fst (to_default (center m) (q * width (center m) / 2) 0)).
Proof.
  unfold obj_coords. intros H.
  destruct (obj_dist m l r) as [dist| |]; try discriminate. simpl in H.
  destruct (obj_angle (left m) (fst l) (snd l)) as [tl| |]; try discriminate.
  simpl in H.
  destruct (np_div (d m / 2) dist) as [half| |] eqn:Eh; try discriminate.
  simpl in H.
  destruct (np_div (tl - half) (tan (aov (center m) / 2))) as [q| |] eqn:Eq;
    try discriminate.
  simpl in H.
  destruct (to_default (center m) (q * width (center m) / 2) 0) as [x y] eqn:Ed.
  injection H as <- <- <-.
  repeat split. exists tl, half, q. rewrite Eh, Eq. now repeat split.
Qed.

(** The only exceptions out of [obj_dist_err] are the range errors of
    [to_central]. *)
Lemma obj_dist_err_Raise_inv (m : DoubleCameraModel) (l r : coords) (e : exn) :
  obj_dist_err m l r = Raise e -> RangeError e.
Proof.
  unfold obj_dist_err. intros H.
  destruct (obj_angle (left m) (fst l) (snd l)) as [tl| |] eqn:El; cbn [bind] in H.
  2: { injection H as ->. now apply obj_angle_Raise_inv in El. }
  2: discriminate.
  destruct (obj_angle (right m) (fst r) (snd r)) as [tr| |] eqn:Er; cbn [bind] in H.
  2: { injection H as ->. now apply obj_angle_Raise_inv in Er. }
  2: discriminate.
  unfold obj_angle_err in H.
  destruct (np_div _ (width (left m))) eqn:E1; cbn [bind] in H;
    [|now apply np_div_not_raise in E1|discriminate].
  destruct (np_div _ (width (right m))) eqn:E2; cbn [bind] in H;
    [|now apply np_div_not_raise in E2|discriminate].
  destruct (np_div (d m) _) eqn:E3; cbn [bind] in H;
    [discriminate|now apply np_div_not_raise in E3|discriminate].
Qed.

(** ** DoubleCameraModel: properties *)

(** The bearings of the two pixel pairs used below, on [cam]. *)
Lemma obj_angle_cam (x0 y0 : R) :
  0 <= x0 <= 2048 -> 0 <= y0 <= 1080 ->
  obj_angle cam x0 y0 = Ok (tan (aov cam / 2) * (x0 - width cam / 2) * 2 / width cam).
Proof.
  intros Hx Hy. apply obj_angle_ok.
  - simpl. lra.
  - split; simpl; lra.
Qed.

(** C1.  For in-range pixel pairs the two bearings [tl] and [tr] exist, and
    [obj_dist] raises the geometry error if and only if [tl - tr <= 0]
    (equality included); otherwise it returns exactly [d / (tl - tr)]. *)
Theorem obj_dist_spec (m : DoubleCameraModel) (l r : coords) :
  0 < width (left m) -> 0 < width (right m) ->
  in_frame (left m) l -> in_frame (right m) r ->
  exists tl tr,
    obj_angle (left m) (fst l) (snd l) = Ok tl /\
    obj_angle (right m) (fst r) (snd r) = Ok tr /\
    (obj_dist m l r = Raise GeometryError <-> tl - tr <= 0) /\
    (~ tl - tr <= 0 -> obj_dist m l r = Ok (d m / (tl - tr))).
Proof.
  intros Hwl Hwr Hl Hr. destruct l as [xl yl], r as [xr yr].
  eexists _, _. split; [|split].
  - apply obj_angle_ok; [lra|exact Hl].
  - apply obj_angle_ok; [lra|exact Hr].
  - set (tl := _ / width (left m)). set (tr := _ / width (right m)).
    assert (Htl : obj_angle (left m) (fst (xl, yl)) (snd (xl, yl)) = Ok tl)
      by (apply obj_angle_ok; [lra|exact Hl]).
    assert (Htr : obj_angle (right m) (fst (xr, yr)) (snd (xr, yr)) = Ok tr)
      by (apply obj_angle_ok; [lra|exact Hr]).
    split; [split|].
    + intros E. destruct (Rle_dec (tl - tr) 0) as [|n]; [assumption|].
      rewrite (obj_dist_ok m _ _ tl tr Htl Htr) in E by lra. discriminate.
    + now apply obj_dist_raises.
    + intros n. apply obj_dist_ok; trivial. lra.
Qed.

Lemma obj_dist_spec_witness :
  (exists D, obj_dist dcam (1045, 0) (648, 0) = Ok D) /\
  obj_dist dcam (500, 0) (1500, 0) = Raise GeometryError.
Proof.
  pose proof tan_half_cam as Ht.
  assert (Hw : 0 < width cam) by (simpl; lra).
  split.
  - assert (Hl : in_frame cam (1045, 0)) by (split; simpl; lra).
    assert (Hr : in_frame cam (648, 0)) by (split; simpl; lra).
    destruct (obj_dist_spec dcam (1045, 0) (648, 0) Hw Hw Hl Hr)
      as (tl & tr & Htl & Htr & _ & Hok).
    simpl in Htl, Htr. rewrite obj_angle_cam in Htl, Htr by lra.
    injection Htl as <-. injection Htr as <-.
    eexists. apply Hok. simpl in *. lra.
  - assert (Hl : in_frame cam (500, 0)) by (split; simpl; lra).
    assert (Hr : in_frame cam (1500, 0)) by (split; simpl; lra).
    destruct (obj_dist_spec dcam (500, 0) (1500, 0) Hw Hw Hl Hr)
      as (tl & tr & Htl & Htr & Hraise & _).
    simpl in Htl, Htr. rewrite obj_angle_cam in Htl, Htr by lra.
    injection Htl as <-. injection Htr as <-.
    apply Hraise. simpl in *. lra.
Defined.

(** C9.  With a positive baseline, every value returned by [obj_dist] is
    strictly positive, and so is the depth in every triple returned by
    [obj_coords]. *)
Theorem obj_dist_positive (m : DoubleCameraModel) (l r : coords) :
  0 < d m ->
  (forall D, obj_dist m l r = Ok D -> 0 < D) /\
  (forall x0 y0 D, obj_coords m l r = Ok (x0, y0, D) -> 0 < D).
Proof.
  intros Hd.
  assert (H : forall D, obj_dist m l r = Ok D -> 0 < D).
  { intros D (tl & tr & _ & _ & Hpos & ->)%obj_dist_inv.
    now apply Rdiv_lt_0_compat. }
  split; [exact H|].
  intros x0 y0 D [HD _]%obj_coords_inv. now apply H.
Qed.

(** The script's rig on a converging pair: the depth, and the pixel of the
    centre camera, which is the midpoint of the two inputs. *)
Lemma obj_dist_dcam (xl yl xr yr : R) :
  0 <= xl <= 2048 -> 0 <= yl <= 1080 -> 0 <= xr <= 2048 -> 0 <= yr <= 1080 ->
  xr < xl ->
  obj_dist dcam (xl, yl) (xr, yr) = Ok (100 * 1024 / (tan (aov cam / 2) * (xl - xr))).
Proof.
  intros Hxl Hyl Hxr Hyr Hlt. pose proof tan_half_cam as Ht.
  assert (Hpos : 0 < tan (aov cam / 2) * (xl - xr)) by (apply Rmult_lt_0_compat; lra).
  rewrite (obj_dist_ok dcam (xl, yl) (xr, yr) _ _ (obj_angle_cam xl yl Hxl Hyl) (obj_angle_cam xr yr Hxr Hyr)).
  - set (t := tan (aov cam / 2)) in *. simpl. f_equal. field.
    repeat split; try lra; nra.
  - set (t := tan (aov cam / 2)) in *. simpl. nra.
Qed.

(** The pixel of the centre camera on the script's rig.  As a real number
    the abscissa handed to [int] is the midpoint of the two inputs; the
    lemma is stated where that midpoint is not an integer. *)
Lemma obj_coords_dcam (xl yl xr yr : R) (z : Z) :
  0 <= xl <= 2048 -> 0 <= yl <= 1080 -> 0 <= xr <= 2048 -> 0 <= yr <= 1080 ->
  xr < xl -> IZR z < (xl + xr) / 2 < IZR z + 1 ->
  obj_coords dcam (xl, yl) (xr, yr) =
  Ok (z, int ((yl + yr) / 2), 100 * 1024 / (tan (aov cam / 2) * (xl - xr))).
Proof.
  intros Hxl Hyl Hxr Hyr Hlt Hz. pose proof tan_half_cam as Ht.
  assert (Hpos : 0 < tan (aov cam / 2) * (xl - xr)) by (apply Rmult_lt_0_compat; lra).
  rewrite (obj_coords_ok dcam (xl, yl) (xr, yr) _ _ (obj_angle_cam xl yl Hxl Hyl) (obj_angle_cam xr yr Hxr Hyr)).
  - rewrite to_default_closed. unfold average2.
    change (center dcam) with cam.
    set (t := tan (aov cam / 2)) in *. simpl.
    assert (Hne : t * (xl - 2048 / 2) * 2 / 2048 - t * (xr - 2048 / 2) * 2 / 2048 <> 0)
      by nra.
    rewrite <- (int_nonneg ((xl + xr) / 2) z) by lra.
    do 2 f_equal; [do 2 f_equal|]; field; repeat split; lra.
  - set (t := tan (aov cam / 2)) in *. simpl. nra.
  - simpl. lra.
  - change (center dcam) with cam. lra.
Qed.

(** The end-to-end scenario of the specification. *)
Example obj_coords_end_to_end :
  obj_coords dcam (1045, 0) (648, 0) =
  Ok (846%Z, 0%Z, 100 * 1024 / (tan (aov cam / 2) * (1045 - 648))).
Proof.
  rewrite (obj_coords_dcam 1045 0 648 0 846) by lra.
  rewrite (int_nonneg ((0 + 0) / 2) 0) by (simpl; lra).
  reflexivity.
Qed.

Lemma obj_dist_positive_witness :
  (exists D, obj_dist dcam (1045, 0) (648, 0) = Ok D /\ 0 < D) /\
  (exists x0 y0 D, obj_coords dcam (1045, 0) (648, 0) = Ok (x0, y0, D) /\ 0 < D).
Proof.
  assert (Hd : 0 < d dcam) by (simpl; lra).
  destruct (obj_dist_positive dcam (1045, 0) (648, 0) Hd) as [H1 H2].
  split.
  - eexists. split.
    + apply obj_dist_dcam; lra.
    + apply H1. apply obj_dist_dcam; lra.
  - eexists _, _, _. split.
    + apply (obj_coords_dcam 1045 0 648 0 846); lra.
    + eapply H2. apply (obj_coords_dcam 1045 0 648 0 846); lra.
Defined.

(** C2.  When [obj_dist] succeeds with depth [D] (baseline positive, field
    of view of the centre camera inside [(0, PI)]), [obj_coords] returns
    [(x0, y0, D)]: with [tl] the left bearing, the centred tangent is
    [tl - (d / 2) / D]; it becomes the Central-CS abscissa
    [tangent / tan (aov / 2) * width / 2] of the centre camera; [x0] is the
    integer part of the first component of [to_default] there, that is of
    [x + width / 2]; [y0] is the integer part of the mean of the two input
    ordinates. *)
Theorem obj_coords_spec (m : DoubleCameraModel) (l r : coords) (D : R) :
  0 < d m -> 0 < aov (center m) < PI ->
  in_frame (left m) l -> in_frame (right m) r ->
  obj_dist m l r = Ok D ->
  exists tl,
    obj_angle (left m) (fst l) (snd l) = Ok tl /\
    let tangent := tl - d m / 2 / D in
    let x := tangent / tan (aov (center m) / 2) * width (center m) / 2 in
    obj_coords m l r =
      Ok (int (fst (to_default (center m) x 0)), int ((snd l + snd r) / 2), D) /\
    fst (to_default (center m) x 0) = x + width (center m) / 2.
Proof.
  intros Hd Ha _ _ (tl & tr & Htl & Htr & Hpos & ->)%obj_dist_inv.
  exists tl. split; [exact Htl|]. intros tangent x. split.
  - apply (obj_coords_ok m l r tl tr Htl Htr Hpos).
    + lra.
    + pose proof (tan_half_aov_pos _ Ha). lra.
  - now rewrite to_default_closed.
Qed.

Lemma obj_coords_spec_witness :
  exists tl D,
    obj_angle cam 1045 0 = Ok tl /\
    obj_coords dcam (1045, 0) (648, 0) =
      Ok (int (fst (to_default cam
                      ((tl - d dcam / 2 / D) / tan (aov cam / 2) * width cam / 2) 0)),
          int ((0 + 0) / 2), D).
Proof.
  assert (Hd : 0 < d dcam) by (simpl; lra).
  assert (Ha : 0 < aov (center dcam) < PI)
    by (simpl; unfold radians; pose proof PI_RGT_0; lra).
  assert (Hl : in_frame (left dcam) (1045, 0)) by (split; simpl; lra).
  assert (Hr : in_frame (right dcam) (648, 0)) by (split; simpl; lra).
  assert (HD : obj_dist dcam (1045, 0) (648, 0) =
               Ok (100 * 1024 / (tan (aov cam / 2) * (1045 - 648))))
    by (apply obj_dist_dcam; lra).
  destruct (obj_coords_spec dcam _ _ _ Hd Ha Hl Hr HD) as (tl & Htl & Hc & _).
  exists tl. eexists. split; [exact Htl|exact Hc].
Defined.

(** [obj_dist_err] has no check on [tl - tr] and does not call [obj_dist]:
    on the script's rig, the pair [(500, 0)], [(1500, 0)] has
    [tl - tr <= 0], [obj_dist] raises the geometry error there, and
    [obj_dist_err] returns a number. *)
Lemma obj_dist_err_returns_on_diverging :
  in_frame (left dcam) (500, 0) /\ in_frame (right dcam) (1500, 0) /\
  (exists tl tr,
     obj_angle (left dcam) 500 0 = Ok tl /\
     obj_angle (right dcam) 1500 0 = Ok tr /\ tl - tr <= 0) /\
  obj_dist dcam (500, 0) (1500, 0) = Raise GeometryError /\
  (exists v, obj_dist_err dcam (500, 0) (1500, 0) = Ok v) /\
  obj_dist_err dcam (500, 0) (1500, 0) <> Raise GeometryError.
Proof.
  pose proof tan_half_cam as Ht.
  assert (Hl : obj_angle cam 500 0 = Ok (tan (aov cam / 2) * (500 - width cam / 2) * 2 / width cam))
    by (apply obj_angle_cam; lra).
  assert (Hr : obj_angle cam 1500 0 = Ok (tan (aov cam / 2) * (1500 - width cam / 2) * 2 / width cam))
    by (apply obj_angle_cam; lra).
  assert (Hdiff : tan (aov cam / 2) * (500 - width cam / 2) * 2 / width cam -
                  tan (aov cam / 2) * (1500 - width cam / 2) * 2 / width cam < 0)
    by (set (t := tan (aov cam / 2)) in *; simpl; lra).
  assert (Herr : exists v, obj_dist_err dcam (500, 0) (1500, 0) = Ok v).
  { eexists. apply (obj_dist_err_ok dcam (500, 0) (1500, 0) _ _ Hl Hr).
    - lra.
    - simpl. lra.
    - simpl. lra. }
  repeat split; try (simpl; lra).
  - eexists _, _. repeat split; [exact Hl|exact Hr|lra].
  - apply (obj_dist_raises dcam (500, 0) (1500, 0) _ _ Hl Hr). lra.
  - exact Herr.
  - destruct Herr as [v Hv]. rewrite Hv. discriminate.
Qed.

(** C3, as the code has it.  For in-range pixel pairs whose bearings
    satisfy [tl - tr < 0], [obj_dist_err] raises nothing: it returns
    [sqrt ((k * el) ^ 2 + (k * er) ^ 2)] with [k = d / (tl - tr) ^ 2] and
    [el], [er] the one-pixel bearing errors [tan (aov / 2) * 2 / width] of
    the two cameras, while [obj_dist] raises the geometry error on the same
    input. *)
Theorem obj_dist_err_diverging (m : DoubleCameraModel) (l r : coords) :
  0 < width (left m) -> 0 < width (right m) ->
  in_frame (left m) l -> in_frame (right m) r ->
  exists tl tr,
    obj_angle (left m) (fst l) (snd l) = Ok tl /\
    obj_angle (right m) (fst r) (snd r) = Ok tr /\
    (tl - tr < 0 ->
     obj_dist m l r = Raise GeometryError /\
     obj_dist_err m l r =
     Ok (sqrt ((d m / (tl - tr) ^ 2 * (tan (aov (left m) / 2) * 2 / width (left m))) ^ 2 +
               (d m / (tl - tr) ^ 2 * (tan (aov (right m) / 2) * 2 / width (right m))) ^ 2))).
Proof.
  intros Hwl Hwr Hl Hr. destruct l as [xl yl], r as [xr yr].
  assert (Htl := obj_angle_ok (left m) xl yl (Rgt_not_eq _ _ Hwl) Hl).
  assert (Htr := obj_angle_ok (right m) xr yr (Rgt_not_eq _ _ Hwr) Hr).
  eexists _, _. split; [exact Htl|]. split; [exact Htr|].
  intros Hneg. split.
  - apply (obj_dist_raises m (xl, yl) (xr, yr) _ _ Htl Htr). lra.
  - apply (obj_dist_err_ok m (xl, yl) (xr, yr) _ _ Htl Htr); lra.
Qed.

Lemma obj_dist_err_diverging_witness :
  exists v, obj_dist_err dcam (500, 0) (1500, 0) = Ok v.
Proof.
  pose proof tan_half_cam as Ht.
  assert (Hw : 0 < width cam) by (simpl; lra).
  assert (Hl : in_frame cam (500, 0)) by (split; simpl; lra).
  assert (Hr : in_frame cam (1500, 0)) by (split; simpl; lra).
  destruct (obj_dist_err_diverging dcam (500, 0) (1500, 0) Hw Hw Hl Hr)
    as (tl & tr & Htl & Htr & Hret).
  simpl in Htl, Htr. rewrite obj_angle_cam in Htl, Htr by lra.
  injection Htl as <-. injection Htr as <-.
  eexists. apply Hret. simpl in *. lra.
Defined.

(** C7.  With the same camera on the left and on the right,
    [obj_dist_err] does not depend on the order of its two arguments:
    whenever it returns a value for [(a, b)], it returns the same value for
    [(b, a)]. *)
Theorem obj_dist_err_swap (m : DoubleCameraModel) (a b : coords) (v : R) :
  left m = right m ->
  in_frame (left m) a -> in_frame (right m) b ->
  obj_dist_err m a b = Ok v -> obj_dist_err m b a = Ok v.
Proof.
  intros Hlr _ _. unfold obj_dist_err. rewrite <- Hlr.
  destruct (obj_angle (left m) (fst a) (snd a)) as [ta| |]; try discriminate.
  destruct (obj_angle (left m) (fst b) (snd b)) as [tb| |]; try discriminate.
  cbn [bind].
  destruct (obj_angle_err (left m)) as [e| |]; try discriminate. cbn [bind].
  replace ((tb - ta) ^ 2) with ((ta - tb) ^ 2) by ring.
  trivial.
Qed.

Lemma obj_dist_err_swap_witness :
  exists v,
    obj_dist_err dcam (1045, 0) (648, 0) = Ok v /\
    obj_dist_err dcam (648, 0) (1045, 0) = Ok v.
Proof.
  pose proof tan_half_cam as Ht.
  assert (Hl : in_frame (left dcam) (1045, 0)) by (split; simpl; lra).
  assert (Hr : in_frame (right dcam) (648, 0)) by (split; simpl; lra).
  assert (Hv : exists v, obj_dist_err dcam (1045, 0) (648, 0) = Ok v).
  { eexists.
    apply (obj_dist_err_ok dcam (1045, 0) (648, 0) _ _
             (obj_angle_cam 1045 0 ltac:(lra) ltac:(lra))
             (obj_angle_cam 648 0 ltac:(lra) ltac:(lra))).
    - set (t := tan (aov cam / 2)) in *. simpl. lra.
    - simpl. lra.
    - simpl. lra. }
  destruct Hv as [v Hv]. exists v. split; [exact Hv|].
  exact (obj_dist_err_swap dcam (1045, 0) (648, 0) v eq_refl Hl Hr Hv).
Defined.

(** The bearings and the two tangents of the second rig. *)
Lemma tan_half_wide : tan (aov wide / 2) = 1.
Proof.
  simpl. replace (PI / 2 / 2) with (PI / 4) by field. apply tan_PI4.
Qed.

Lemma tan_half_narrow : tan (aov narrow / 2) = 1 / 2.
Proof.
  simpl. replace (2 * atan (1 / 2) / 2) with (atan (1 / 2)) by field. apply tan_atan.
Qed.

Lemma obj_angle_wide (x0 y0 : R) :
  0 <= x0 <= 2048 -> 0 <= y0 <= 1080 ->
  obj_angle wide x0 y0 = Ok ((x0 - 1024) / 1024).
Proof.
  intros Hx Hy. rewrite obj_angle_ok.
  - rewrite tan_half_wide. simpl. f_equal. field.
  - simpl. lra.
  - split; simpl; lra.
Qed.

(** A run of the second rig whose abscissa is [- 923.5]. *)
Lemma obj_coords_rig_negative :
  obj_coords rig (201 / 2, 0) (0, 0) = Ok ((-923)%Z, 0%Z, 100 * 1024 / (201 / 2)).
Proof.
  rewrite (obj_coords_ok rig (201 / 2, 0) (0, 0) _ _
             (obj_angle_wide (201 / 2) 0 ltac:(lra) ltac:(lra))
             (obj_angle_wide 0 0 ltac:(lra) ltac:(lra))).
  - rewrite to_default_closed. change (center rig) with narrow.
    rewrite tan_half_narrow. unfold average2. simpl.
    replace ((201 / 2 - 1024) / 1024 - (0 - 1024) / 1024) with (201 / 2 / 1024) by field.
    replace (((201 / 2 - 1024) / 1024 - 100 / 2 / (100 / (201 / 2 / 1024))) / (1 / 2) *
             2048 / 2 + 2048 / 2) with (- (1847 / 2)) by field.
    replace ((0 + 0) / 2) with 0 by field.
    rewrite (int_neg (- (1847 / 2)) (-923)) by lra.
    rewrite (int_nonneg 0 0) by lra.
    do 2 f_equal. field.
  - lra.
  - simpl. lra.
  - change (center rig) with narrow. rewrite tan_half_narrow. lra.
Qed.

(** C10.  The integers returned by [obj_coords] are the computed reals with
    the fractional part dropped, towards zero, not rounded to the nearest.
    [int v] lies between [0] and [v], less than one away from [v].  The
    returned [x0] is [int] of the abscissa the code computes, the first
    component of [to_default] of the centre camera at
    [(tl - d / 2 / D) / tan (aov / 2) * width / 2], so it lies between [0]
    and that abscissa, less than one away; the returned [y0] is [int] of the
    mean ordinate.  A mean of [0.5] gives [0], an abscissa of [1023.9] gives
    [1023], and an abscissa of [-923.5] gives [-923]. *)
Theorem obj_coords_truncates :
  (forall v, (0 <= v -> IZR (int v) <= v < IZR (int v) + 1) /\
             (v <= 0 -> IZR (int v) - 1 < v <= IZR (int v))) /\
  (forall m l r x0 y0 D,
     obj_coords m l r = Ok (x0, y0, D) ->
     exists tl,
       obj_angle (left m) (fst l) (snd l) = Ok tl /\
       let x := (tl - d m / 2 / D) / tan (aov (center m) / 2) * width (center m) / 2 in
       let abscissa := fst (to_default (center m) x 0) in
       x0 = int abscissa /\
       (0 <= abscissa -> IZR x0 <= abscissa < IZR x0 + 1) /\
       (abscissa <= 0 -> IZR x0 - 1 < abscissa <= IZR x0) /\
       y0 = int (average2 (snd l) (snd r))) /\
  int (1 / 2) = 0%Z /\ int (10239 / 10) = 1023%Z /\ int (- (1 / 2)) = 0%Z /\
  obj_coords dcam (10458 / 10, 0) (1002, 1) =
    Ok (1023%Z, 0%Z, 100 * 1024 / (tan (aov cam / 2) * (10458 / 10 - 1002))) /\
  obj_coords rig (201 / 2, 0) (0, 0) = Ok ((-923)%Z, 0%Z, 100 * 1024 / (201 / 2)).
Proof.
  assert (Hint : forall v, (0 <= v -> IZR (int v) <= v < IZR (int v) + 1) /\
                           (v <= 0 -> IZR (int v) - 1 < v <= IZR (int v))).
  { intros v. split.
    - apply int_bounds_nonneg.
    - intros [Hv| ->].
      + now apply int_bounds_neg.
      + rewrite (int_nonneg 0 0); simpl; lra. }
  repeat apply conj.
  - exact Hint.
  - intros m l r x0 y0 D (_ & Hy & tl & half & q & Htl & Hh & Hq & Hx)%obj_coords_inv.
    exists tl. split; [exact Htl|].
    apply np_div_inv in Hh as [_ ->]. apply np_div_inv in Hq as [_ ->].
    intros x abscissa. subst x. fold abscissa in Hx. rewrite Hx.
    destruct (Hint abscissa) as [Hpos Hneg].
    split; [reflexivity|]. split; [exact Hpos|]. split; [exact Hneg|exact Hy].
  - apply int_nonneg; simpl; lra.
  - apply int_nonneg; simpl; lra.
  - apply int_neg; simpl; lra.
  - rewrite (obj_coords_dcam (10458 / 10) 0 1002 1 1023) by lra.
    replace ((0 + 1) / 2) with (1 / 2) by field.
    rewrite (int_nonneg (1 / 2) 0) by (simpl; lra).
    reflexivity.
  - exact obj_coords_rig_negative.
Qed.

Lemma obj_coords_truncates_witness :
  exists x0 y0 D tl,
    obj_coords dcam (1045, 0) (648, 1) = Ok (x0, y0, D) /\
    obj_angle cam 1045 0 = Ok tl /\
    x0 = int (fst (to_default cam
                     ((tl - d dcam / 2 / D) / tan (aov cam / 2) * width cam / 2) 0)) /\
    y0 = int (average2 0 1).
Proof.
  destruct obj_coords_truncates as (_ & Hrun & _).
  assert (Hc := obj_coords_dcam 1045 0 648 1 846 ltac:(lra) ltac:(lra) ltac:(lra)
                  ltac:(lra) ltac:(lra) ltac:(lra)).
  destruct (Hrun dcam _ _ _ _ _ Hc) as (tl & Htl & Hx & _ & _ & Hy).
  eexists _, _, _, tl. split; [exact Hc|]. split; [exact Htl|]. split; [exact Hx|exact Hy].
Defined.

(** ** CameraModel: further properties *)

(** The inverse computed by the adjugate formula is a two-sided inverse
    whenever the determinant is not zero. *)
Lemma linalg_inv_correct (m : mat3) :
  det3 m <> 0 -> matmul m (linalg_inv m) = I3 /\ matmul (linalg_inv m) m = I3.
Proof.
  destruct m as [[[[a b] c] [[d0 e] f]] [[g h] i]].
  unfold linalg_inv, matmul, vecmat, I3. cbv zeta. unfold det3. intros Hk.
  split; repeat (f_equal; try (field; assumption)).
Qed.

(** X1.  [obj_angle_err] is the bearing step of one pixel: on the frame,
    the bearings of two pixels differ by the difference of their abscissas
    times [obj_angle_err]; the ordinates play no part. *)
Theorem obj_angle_step (c : CameraModel) (x0 y0 x1 y1 : R) :
  0 < width c -> in_frame c (x0, y0) -> in_frame c (x1, y1) ->
  exists t0 t1 e,
    obj_angle c x0 y0 = Ok t0 /\ obj_angle c x1 y1 = Ok t1 /\
    obj_angle_err c = Ok e /\ t1 - t0 = (x1 - x0) * e.
Proof.
  intros Hw H0 H1. assert (Hw0 : width c <> 0) by lra.
  eexists _, _, _. repeat split.
  - apply (obj_angle_ok c x0 y0 Hw0 H0).
  - apply (obj_angle_ok c x1 y1 Hw0 H1).
  - apply (obj_angle_err_ok c Hw0).
  - now field.
Qed.

Lemma obj_angle_step_witness :
  exists t0 t1 e,
    obj_angle cam 648 0 = Ok t0 /\ obj_angle cam 649 100 = Ok t1 /\
    obj_angle_err cam = Ok e /\ t1 - t0 = (649 - 648) * e.
Proof.
  apply (obj_angle_step cam 648 0 649 100).
  - simpl; lra.
  - split; simpl; lra.
  - split; simpl; lra.
Defined.

(** X2.  The sign convention of the docstring of [obj_angle]: with a field
    of view inside [(0, PI)], the bearing is positive exactly for pixels
    right of the vertical centre line, negative exactly for pixels left of
    it, and zero exactly on it. *)
Theorem obj_angle_sign (c : CameraModel) (x0 y0 : R) :
  0 < width c -> 0 < aov c < PI -> in_frame c (x0, y0) ->
  exists t, obj_angle c x0 y0 = Ok t /\
    (0 < t <-> width c / 2 < x0) /\
    (t < 0 <-> x0 < width c / 2) /\
    (t = 0 <-> x0 = width c / 2).
Proof.
  intros Hw Ha Hin. pose proof (tan_half_aov_pos c Ha) as Ht.
  eexists. split; [apply obj_angle_ok; [lra|exact Hin]|].
  set (T := tan (aov c / 2)) in *. set (w := width c) in *.
  assert (Hs : T * (x0 - w / 2) * 2 / w = (2 * T / w) * (x0 - w / 2)) by (field; lra).
  assert (Hk : 0 < 2 * T / w) by (apply Rdiv_lt_0_compat; lra).
  rewrite Hs. repeat split; intros H; nra.
Qed.

Lemma obj_angle_sign_witness :
  exists t, obj_angle cam 1045 0 = Ok t /\ 0 < t.
Proof.
  assert (Hw : 0 < width cam) by (simpl; lra).
  assert (Ha : 0 < aov cam < PI) by (simpl; unfold radians; pose proof PI_RGT_0; lra).
  assert (Hin : in_frame cam (1045, 0)) by (split; simpl; lra).
  destruct (obj_angle_sign cam 1045 0 Hw Ha Hin) as (t & Ht & Hpos & _).
  exists t. split; [exact Ht|]. apply Hpos. simpl. lra.
Defined.

(** X3.  On the frame the bearing stays within the half field of view,
    [- tan (aov / 2) <= t <= tan (aov / 2)], and it grows strictly with the
    pixel abscissa. *)
Theorem obj_angle_bounded_increasing (c : CameraModel) (x0 y0 x1 y1 : R) :
  0 < width c -> 0 < aov c < PI -> in_frame c (x0, y0) -> in_frame c (x1, y1) ->
  exists t0 t1,
    obj_angle c x0 y0 = Ok t0 /\ obj_angle c x1 y1 = Ok t1 /\
    - tan (aov c / 2) <= t0 <= tan (aov c / 2) /\
    (x0 < x1 -> t0 < t1).
Proof.
  intros Hw Ha [Hx0 Hy0] [Hx1 Hy1]. pose proof (tan_half_aov_pos c Ha) as Ht.
  simpl in Hx0, Hx1.
  eexists _, _. split; [apply obj_angle_ok; [lra|split; assumption]|].
  split; [apply obj_angle_ok; [lra|split; assumption]|].
  set (T := tan (aov c / 2)) in *. set (w := width c) in *.
  assert (Hk : 0 < 2 * T / w) by (apply Rdiv_lt_0_compat; lra).
  assert (Hs : forall x, T * (x - w / 2) * 2 / w = (2 * T / w) * (x - w / 2))
    by (intros x; field; lra).
  assert (HT : T = (2 * T / w) * (w / 2)) by (field; lra).
  rewrite !Hs. repeat split.
  - rewrite HT at 1. nra.
  - rewrite HT at 2. nra.
  - intros Hlt. nra.
Qed.

Lemma obj_angle_bounded_increasing_witness :
  exists t0 t1,
    obj_angle cam 648 0 = Ok t0 /\ obj_angle cam 1045 0 = Ok t1 /\
    - tan (aov cam / 2) <= t0 <= tan (aov cam / 2) /\ t0 < t1.
Proof.
  assert (Hw : 0 < width cam) by (simpl; lra).
  assert (Ha : 0 < aov cam < PI) by (simpl; unfold radians; pose proof PI_RGT_0; lra).
  assert (H0 : in_frame cam (648, 0)) by (split; simpl; lra).
  assert (H1 : in_frame cam (1045, 0)) by (split; simpl; lra).
  destruct (obj_angle_bounded_increasing cam 648 0 1045 0 Hw Ha H0 H1)
    as (t0 & t1 & Ht0 & Ht1 & Hb & Hinc).
  exists t0, t1. repeat split; try assumption; try apply Hb. apply Hinc. lra.
Defined.

(** X4.  Mirror symmetry: the pixel mirrored in the vertical centre line,
    [width - x0], has the opposite bearing. *)
Theorem obj_angle_mirror (c : CameraModel) (x0 y0 y1 : R) :
  0 < width c -> in_frame c (x0, y0) -> 0 <= y1 <= height c ->
  exists t, obj_angle c x0 y0 = Ok t /\ obj_angle c (width c - x0) y1 = Ok (- t).
Proof.
  intros Hw [Hx Hy] Hy1. simpl in Hx, Hy.
  eexists. split; [apply obj_angle_ok; [lra|split; assumption]|].
  rewrite obj_angle_ok.
  - f_equal. field. lra.
  - lra.
  - split; simpl; lra.
Qed.

Lemma obj_angle_mirror_witness :
  exists t, obj_angle cam 648 0 = Ok t /\ obj_angle cam (width cam - 648) 7 = Ok (- t).
Proof.
  apply (obj_angle_mirror cam 648 0 7).
  - simpl; lra.
  - split; simpl; lra.
  - simpl; lra.
Defined.

(** X5.  Central -> Default -> Central.  [to_default] followed by
    [to_central] gives back [(x, y)] when [(x, y)] lies within half a width
    and half a height of the centre, and raises a range error otherwise:
    [to_default] itself checks nothing, the check comes on the way back. *)
Theorem to_central_to_default (c : CameraModel) (x y : R) :
  let p := to_default c x y in
  let inside := - (width c / 2) <= x <= width c / 2 /\
                - (height c / 2) <= y <= height c / 2 in
  (inside -> to_central c (fst p) (snd p) = Ok (x, y)) /\
  (~ inside -> exists e, to_central c (fst p) (snd p) = Raise e /\ RangeError e).
Proof.
  intros p inside. subst p inside. rewrite to_default_closed. simpl. split.
  - intros [Hx Hy]. rewrite to_central_ok by lra. do 2 f_equal; field.
  - intros Hout. apply to_central_raises.
    destruct (Rlt_dec (x + width c / 2) 0); [tauto|].
    destruct (Rlt_dec (height c / 2 - y) 0); [tauto|].
    destruct (Rgt_dec (x + width c / 2) (width c)); [tauto|].
    destruct (Rgt_dec (height c / 2 - y) (height c)); [tauto|].
    exfalso. apply Hout. lra.
Qed.

Lemma to_central_to_default_witness :
  to_central cam (fst (to_default cam (-177) 540)) (snd (to_default cam (-177) 540))
    = Ok (-177, 540) /\
  exists e,
    to_central cam (fst (to_default cam 1025 0)) (snd (to_default cam 1025 0)) = Raise e /\
    RangeError e.
Proof.
  split.
  - apply (to_central_to_default cam (-177) 540). simpl. lra.
  - apply (to_central_to_default cam 1025 0). simpl. lra.
Defined.

(** X6.  [__init__] cannot fail and [T_d] is the inverse of [T_c]: whatever
    the width and the height (zero and negative ones too), [T_c] has
    determinant [-1], so [np.linalg.inv] has a matrix to return, and the two
    products of [T_c] and [T_d] are the identity. *)
Theorem T_d_inverts_T_c (c : CameraModel) :
  det3 (T_c c) <> 0 /\
  matmul (T_c c) (T_d c) = I3 /\ matmul (T_d c) (T_c c) = I3.
Proof.
  assert (Hdet : det3 (T_c c) <> 0) by (rewrite det_T_c; lra).
  split; [exact Hdet|]. unfold T_d. now apply linalg_inv_correct.
Qed.

(** X7.  The Central CS of the header comment: [to_central] sends the frame
    onto the rectangle of half a width and half a height around the origin,
    the frame centre to the origin; it keeps horizontal offsets ([x] points
    right) and reverses vertical ones ([y] points up). *)
Theorem to_central_axes (c : CameraModel) (x0 y0 x1 y1 : R) :
  in_frame c (x0, y0) -> in_frame c (x1, y1) ->
  exists a0 b0 a1 b1,
    to_central c x0 y0 = Ok (a0, b0) /\ to_central c x1 y1 = Ok (a1, b1) /\
    (- (width c / 2) <= a0 <= width c / 2 /\ - (height c / 2) <= b0 <= height c / 2) /\
    a1 - a0 = x1 - x0 /\ b1 - b0 = y0 - y1 /\
    to_central c (width c / 2) (height c / 2) = Ok (0, 0).
Proof.
  intros [Hx0 Hy0] [Hx1 Hy1]. simpl in *.
  eexists _, _, _, _. split; [now apply to_central_ok|].
  split; [now apply to_central_ok|].
  repeat split; try lra.
  rewrite to_central_ok by lra. do 2 f_equal; field.
Qed.

Lemma to_central_axes_witness :
  exists a0 b0 a1 b1,
    to_central cam 0 0 = Ok (a0, b0) /\ to_central cam 2048 1080 = Ok (a1, b1) /\
    a1 - a0 = 2048 - 0 /\ b1 - b0 = 0 - 1080.
Proof.
  assert (H0 : in_frame cam (0, 0)) by (split; simpl; lra).
  assert (H1 : in_frame cam (2048, 1080)) by (split; simpl; lra).
  destruct (to_central_axes cam 0 0 2048 1080 H0 H1)
    as (a0 & b0 & a1 & b1 & E0 & E1 & _ & Ha & Hb & _).
  exists a0, b0, a1, b1. repeat split; assumption.
Defined.

(** ** DoubleCameraModel: further properties *)

Lemma in_frame_dec (c : CameraModel) (p : coords) : {in_frame c p} + {~ in_frame c p}.
Proof.
  unfold in_frame.
  destruct (Rle_dec 0 (fst p)), (Rle_dec (fst p) (width c)),
    (Rle_dec 0 (snd p)), (Rle_dec (snd p) (height c)); (left; lra) || (right; lra).
Qed.

Lemma obj_angle_out_of_frame (c : CameraModel) (x0 y0 : R) :
  ~ in_frame c (x0, y0) -> exists e, obj_angle c x0 y0 = Raise e /\ RangeError e.
Proof.
  intros Hout. destruct (to_central_raises c x0 y0) as (e & He & Hr).
  - unfold in_frame in Hout. simpl in Hout.
    destruct (Rlt_dec x0 0); [tauto|]. destruct (Rlt_dec y0 0); [tauto|].
    destruct (Rgt_dec x0 (width c)); [tauto|].
    destruct (Rgt_dec y0 (height c)); [tauto|].
    exfalso. apply Hout. lra.
  - exists e. split; [|exact Hr]. unfold obj_angle. now rewrite He.
Qed.

(** The four ways a call of [obj_dist] can go, cameras of positive width. *)
Lemma obj_dist_cases (m : DoubleCameraModel) (l r : coords) :
  0 < width (left m) -> 0 < width (right m) ->
  (~ in_frame (left m) l /\ exists e, obj_dist m l r = Raise e /\ RangeError e) \/
  (in_frame (left m) l /\ ~ in_frame (right m) r /\
   exists e, obj_dist m l r = Raise e /\ RangeError e) \/
  (in_frame (left m) l /\ in_frame (right m) r /\ obj_dist m l r = Raise GeometryError) \/
  (in_frame (left m) l /\ in_frame (right m) r /\ exists D, obj_dist m l r = Ok D).
Proof.
  intros Hwl Hwr. destruct l as [xl yl], r as [xr yr].
  destruct (in_frame_dec (left m) (xl, yl)) as [Hl|Hl].
  - pose proof (obj_angle_ok (left m) xl yl (Rgt_not_eq _ _ Hwl) Hl) as Htl.
    destruct (in_frame_dec (right m) (xr, yr)) as [Hr|Hr].
    + pose proof (obj_angle_ok (right m) xr yr (Rgt_not_eq _ _ Hwr) Hr) as Htr.
      set (tl := _ / width (left m)) in Htl. set (tr := _ / width (right m)) in Htr.
      destruct (Rle_dec (tl - tr) 0) as [Hle|Hgt].
      * right; right; left. repeat split; try apply Hl; try apply Hr.
        exact (obj_dist_raises m (xl, yl) (xr, yr) tl tr Htl Htr Hle).
      * right; right; right. repeat split; try apply Hl; try apply Hr.
        eexists. apply (obj_dist_ok m (xl, yl) (xr, yr) tl tr Htl Htr). lra.
    + right; left. split; [exact Hl|]. split; [exact Hr|].
      destruct (obj_angle_out_of_frame _ _ _ Hr) as (e & He & HR).
      exists e. split; [|exact HR]. unfold obj_dist. simpl. now rewrite Htl, He.
  - left. split; [exact Hl|].
    destruct (obj_angle_out_of_frame _ _ _ Hl) as (e & He & HR).
    exists e. split; [|exact HR]. unfold obj_dist. simpl. now rewrite He.
Qed.

(** X8.  What [obj_dist] can raise, and when.  With cameras of positive
    width it raises a range error exactly when one of the two pixel pairs is
    outside its frame, whatever the other pair is; the geometry error needs
    both pairs inside; nothing else is raised and no division by zero is
    met. *)
Theorem obj_dist_errors (m : DoubleCameraModel) (l r : coords) :
  0 < width (left m) -> 0 < width (right m) ->
  ((exists e, obj_dist m l r = Raise e /\ RangeError e) <->
   ~ in_frame (left m) l \/ ~ in_frame (right m) r) /\
  (obj_dist m l r = Raise GeometryError ->
   in_frame (left m) l /\ in_frame (right m) r) /\
  (forall e, obj_dist m l r = Raise e -> RangeError e \/ e = GeometryError) /\
  obj_dist m l r <> NonFinite.
Proof.
  intros Hwl Hwr.
  destruct (obj_dist_cases m l r Hwl Hwr)
    as [(Hl & e & E & HR)|[(Hl & Hr & e & E & HR)|[(Hl & Hr & E)|(Hl & Hr & D & E)]]];
    rewrite E; (split; [split|split; [|split]]).
  all: try discriminate.
  all: try solve [intros _; tauto | intros _; eauto | intros [?|?]; contradiction].
  all: try solve [intros [= ->]; now apply RangeError_not_GeometryError in HR].
  all: try solve [intros e' [= <-]; tauto].
  all: try solve [intros (e' & [= <-] & He'); now apply RangeError_not_GeometryError in He'].
  all: try solve [intros (e' & He' & _); discriminate].
Qed.

Lemma obj_dist_errors_witness :
  (exists e, obj_dist dcam (1045, 0) (648, 1081) = Raise e /\ RangeError e) /\
  (exists e, obj_dist dcam (-1, 0) (1500, 0) = Raise e /\ RangeError e).
Proof.
  assert (Hw : 0 < width cam) by (simpl; lra).
  split.
  - apply (obj_dist_errors dcam (1045, 0) (648, 1081) Hw Hw).
    right. unfold in_frame. simpl. lra.
  - apply (obj_dist_errors dcam (-1, 0) (1500, 0) Hw Hw).
    left. unfold in_frame. simpl. lra.
Defined.

(** X9.  [obj_coords] adds no failure of its own: it raises exactly the
    exceptions of [obj_dist]; and with a positive baseline and a centre
    camera whose field of view is inside [(0, PI)], it returns a triple with
    depth [D] exactly when [obj_dist] returns [D]. *)
Theorem obj_coords_outcome (m : DoubleCameraModel) (l r : coords) :
  0 < d m -> 0 < aov (center m) < PI ->
  (forall e, obj_coords m l r = Raise e <-> obj_dist m l r = Raise e) /\
  (forall D, (exists x0 y0, obj_coords m l r = Ok (x0, y0, D)) <-> obj_dist m l r = Ok D).
Proof.
  intros Hd Ha. pose proof (tan_half_aov_pos _ Ha) as Ht. split.
  - intros e. unfold obj_coords.
    destruct (obj_dist m l r) as [D| |] eqn:E; cbn [bind];
      [|split; intros [= ->]; reflexivity|split; discriminate].
    split; [|discriminate].
    apply obj_dist_inv in E as (tl & tr & Htl & _ & Hpos & ->).
    rewrite Htl. cbn [bind]. rewrite np_div_ok.
    2:{ apply Rgt_not_eq. apply Rdiv_lt_0_compat; lra. }
    cbn [bind]. rewrite np_div_ok by lra. cbn [bind].
    destruct (to_default _ _ _). discriminate.
  - intros D. split.
    + intros (x0 & y0 & H). now apply obj_coords_inv in H.
    + intros H. pose proof H as (tl & tr & Htl & Htr & Hpos & ->)%obj_dist_inv.
      eexists _, _.
      apply (obj_coords_ok m l r tl tr Htl Htr Hpos); lra.
Qed.

Lemma obj_coords_outcome_witness :
  obj_coords dcam (500, 0) (1500, 0) = Raise GeometryError /\
  exists x0 y0 D, obj_coords dcam (1045, 0) (648, 0) = Ok (x0, y0, D).
Proof.
  assert (Hd : 0 < d dcam) by (simpl; lra).
  assert (Ha : 0 < aov (center dcam) < PI)
    by (simpl; unfold radians; pose proof PI_RGT_0; lra).
  pose proof tan_half_cam as Ht.
  split.
  - apply (obj_coords_outcome dcam (500, 0) (1500, 0) Hd Ha).
    apply (obj_dist_raises dcam (500, 0) (1500, 0) _ _
             (obj_angle_cam 500 0 ltac:(lra) ltac:(lra))
             (obj_angle_cam 1500 0 ltac:(lra) ltac:(lra))).
    set (t := tan (aov cam / 2)) in *. simpl. lra.
  - destruct (proj2 (obj_coords_outcome dcam (1045, 0) (648, 0) Hd Ha)
                    (100 * 1024 / (tan (aov cam / 2) * (1045 - 648)))) as [_ Hex].
    destruct (Hex (obj_dist_dcam 1045 0 648 0 ltac:(lra) ltac:(lra) ltac:(lra)
                     ltac:(lra) ltac:(lra))) as (x0 & y0 & H).
    exists x0, y0. eexists. exact H.
Defined.

(** X10.  The disparity formula.  When the left and the right camera are
    the same model, only the horizontal pixel disparity [xl - xr] matters:
    [obj_dist] raises the geometry error when [xl <= xr] and otherwise
    returns [d * width / (2 * tan (aov / 2) * (xl - xr))]; the ordinates
    have no influence. *)
Theorem obj_dist_disparity (m : DoubleCameraModel) (xl yl xr yr : R) :
  left m = right m -> 0 < width (left m) -> 0 < aov (left m) < PI ->
  in_frame (left m) (xl, yl) -> in_frame (left m) (xr, yr) ->
  (xl <= xr -> obj_dist m (xl, yl) (xr, yr) = Raise GeometryError) /\
  (xr < xl ->
   obj_dist m (xl, yl) (xr, yr) =
   Ok (d m * width (left m) / (2 * tan (aov (left m) / 2) * (xl - xr)))).
Proof.
  intros Hlr Hw Ha Hl Hr. pose proof (tan_half_aov_pos _ Ha) as Ht.
  assert (Hw0 : width (left m) <> 0) by lra.
  pose proof (obj_angle_ok (left m) xl yl Hw0 Hl) as Htl.
  pose proof (obj_angle_ok (left m) xr yr Hw0 Hr) as Htr.
  rewrite Hlr in Htr at 1.
  set (T := tan (aov (left m) / 2)) in *. set (w := width (left m)) in *.
  assert (Hk : 0 < 2 * T / w) by (apply Rdiv_lt_0_compat; lra).
  assert (Hdiff : T * (xl - w / 2) * 2 / w - T * (xr - w / 2) * 2 / w
                  = (2 * T / w) * (xl - xr)) by (field; lra).
  split; intros Hx.
  - apply (obj_dist_raises m (xl, yl) (xr, yr) _ _ Htl Htr). rewrite Hdiff. nra.
  - rewrite (obj_dist_ok m (xl, yl) (xr, yr) _ _ Htl Htr) by (rewrite Hdiff; nra).
    f_equal. rewrite Hdiff. field. repeat split; lra.
Qed.

Lemma obj_dist_disparity_witness :
  obj_dist dcam (648, 0) (648, 9) = Raise GeometryError /\
  obj_dist dcam (1045, 3) (648, 9) =
    Ok (d dcam * width cam / (2 * tan (aov cam / 2) * (1045 - 648))).
Proof.
  assert (Hw : 0 < width (left dcam)) by (simpl; lra).
  assert (Ha : 0 < aov (left dcam) < PI)
    by (simpl; unfold radians; pose proof PI_RGT_0; lra).
  split.
  - apply (obj_dist_disparity dcam 648 0 648 9 eq_refl Hw Ha).
    + split; simpl; lra.
    + split; simpl; lra.
    + lra.
  - apply (obj_dist_disparity dcam 1045 3 648 9 eq_refl Hw Ha).
    + split; simpl; lra.
    + split; simpl; lra.
    + lra.
Defined.

(** X11.  The nearest measurable depth.  With a positive baseline and
    fields of view inside [(0, PI)], every depth returned by [obj_dist] is
    at least [d / (tan (aovl / 2) + tan (aovr / 2))]: the two bearings
    cannot differ by more than the two half fields of view together. *)
Theorem obj_dist_lower_bound (m : DoubleCameraModel) (l r : coords) (D : R) :
  0 < d m -> 0 < aov (left m) < PI -> 0 < aov (right m) < PI ->
  obj_dist m l r = Ok D ->
  d m / (tan (aov (left m) / 2) + tan (aov (right m) / 2)) <= D.
Proof.
  intros Hd Hal Har (tl & tr & Htl & Htr & Hpos & ->)%obj_dist_inv.
  pose proof (tan_half_aov_pos _ Hal) as HTl.
  pose proof (tan_half_aov_pos _ Har) as HTr.
  apply obj_angle_inv in Htl as ([Hxl _] & Hwl & ->).
  apply obj_angle_inv in Htr as ([Hxr _] & Hwr & ->).
  simpl in Hxl, Hxr.
  set (Tl := tan (aov (left m) / 2)) in *. set (Tr := tan (aov (right m) / 2)) in *.
  set (wl := width (left m)) in *. set (wr := width (right m)) in *.
  assert (Hwl' : 0 < wl) by lra. assert (Hwr' : 0 < wr) by lra.
  set (tl := Tl * (fst l - wl / 2) * 2 / wl) in *.
  set (tr := Tr * (fst r - wr / 2) * 2 / wr) in *.
  assert (Hl : tl <= Tl).
  { apply Rmult_le_reg_r with wl; [lra|].
    replace (tl * wl) with (Tl * (2 * fst l - wl)) by (unfold tl; field; lra). nra. }
  assert (Hr : - Tr <= tr).
  { apply Rmult_le_reg_r with wr; [lra|].
    replace (tr * wr) with (Tr * (2 * fst r - wr)) by (unfold tr; field; lra). nra. }
  unfold Rdiv. apply Rmult_le_compat_l; [lra|].
  apply Rinv_le_contravar; lra.
Qed.

Lemma obj_dist_lower_bound_witness :
  d dcam / (tan (aov cam / 2) + tan (aov cam / 2))
  <= 100 * 1024 / (tan (aov cam / 2) * (1045 - 648)).
Proof.
  assert (Hd : 0 < d dcam) by (simpl; lra).
  assert (Ha : 0 < aov cam < PI) by (simpl; unfold radians; pose proof PI_RGT_0; lra).
  apply (obj_dist_lower_bound dcam (1045, 0) (648, 0) _ Hd Ha Ha).
  apply obj_dist_dcam; lra.
Defined.

(** Two bearings taken by the same camera differ by a positive multiple of
    the pixel disparity. *)
Lemma bearing_diff_same_camera (c : CameraModel) (xl xr : R) :
  0 < width c -> 0 < aov c < PI ->
  0 < 2 * tan (aov c / 2) / width c /\
  tan (aov c / 2) * (xl - width c / 2) * 2 / width c -
  tan (aov c / 2) * (xr - width c / 2) * 2 / width c =
  2 * tan (aov c / 2) / width c * (xl - xr).
Proof.
  intros Hw Ha. pose proof (tan_half_aov_pos _ Ha) as Ht. split.
  - apply Rdiv_lt_0_compat; lra.
  - field. lra.
Qed.

Lemma int_in_range (v w : R) : 0 <= v <= w -> 0 <= IZR (int v) <= w.
Proof.
  intros [H0 Hw]. pose proof (int_bounds_nonneg v H0) as [Hlo Hhi]. split; [|lra].
  apply IZR_le. assert (Hz : (-1 < int v)%Z) by (apply lt_IZR; lra). lia.
Qed.

(** One camera model in all three places.  As a real number the abscissa
    handed to [int] is the midpoint of the two inputs, so the pixel returned
    is at most the midpoint and less than one below it.  The left bound is
    stated with [<=]: it is then also met by a float abscissa that falls
    just below an integer midpoint. *)
Lemma obj_coords_same_camera (m : DoubleCameraModel) (xl yl xr yr : R) :
  left m = right m -> center m = left m ->
  0 < width (left m) -> 0 < aov (left m) < PI -> d m <> 0 ->
  in_frame (left m) (xl, yl) -> in_frame (left m) (xr, yr) -> xr < xl ->
  exists x0 : Z,
    obj_coords m (xl, yl) (xr, yr) =
    Ok (x0, int ((yl + yr) / 2),
        d m * width (left m) / (2 * tan (aov (left m) / 2) * (xl - xr))) /\
    0 <= IZR x0 /\ (xl + xr) / 2 - 1 <= IZR x0 <= (xl + xr) / 2.
Proof.
  intros Hlr Hc Hw Ha Hd Hl Hr Hlt. pose proof (tan_half_aov_pos _ Ha) as Ht.
  assert (Hw0 : width (left m) <> 0) by lra.
  pose proof (obj_angle_ok (left m) xl yl Hw0 Hl) as Htl.
  pose proof (obj_angle_ok (left m) xr yr Hw0 Hr) as Htr.
  rewrite Hlr in Htr at 1.
  destruct (bearing_diff_same_camera (left m) xl xr Hw Ha) as [Hk Hdiff].
  destruct Hl as [Hxl _], Hr as [Hxr _]. simpl in Hxl, Hxr.
  exists (int ((xl + xr) / 2)). split; [|split].
  - rewrite (obj_coords_ok m (xl, yl) (xr, yr) _ _ Htl Htr).
    + rewrite to_default_closed, Hc. unfold average2.
      set (T := tan (aov (left m) / 2)) in *. set (w := width (left m)) in *.
      assert (Hne : T * (xl - w / 2) * 2 / w - T * (xr - w / 2) * 2 / w <> 0)
        by (rewrite Hdiff; nra).
      simpl. do 2 f_equal; [do 2 f_equal|]; field;
        repeat split; try assumption; try lra; nra.
    + rewrite Hdiff. nra.
    + exact Hd.
    + rewrite Hc. lra.
  - apply (int_in_range _ (width (left m))). lra.
  - pose proof (int_bounds_nonneg ((xl + xr) / 2) ltac:(lra)). lra.
Qed.

(** X12.  With one camera model in all three places, the pixel reported by
    [obj_coords] is the midpoint of the two input pixels cut to integers:
    [x0] is at most [(xl + xr) / 2], at most one below it and not negative,
    [y0] is [int ((yl + yr) / 2)], whatever the baseline and the field of
    view; the depth is that of the disparity formula. *)
Theorem obj_coords_midpoint (m : DoubleCameraModel) (xl yl xr yr : R) :
  left m = right m -> center m = left m ->
  0 < width (left m) -> 0 < aov (left m) < PI -> 0 < d m ->
  in_frame (left m) (xl, yl) -> in_frame (left m) (xr, yr) -> xr < xl ->
  exists x0 : Z,
    obj_coords m (xl, yl) (xr, yr) =
    Ok (x0, int ((yl + yr) / 2),
        d m * width (left m) / (2 * tan (aov (left m) / 2) * (xl - xr))) /\
    0 <= IZR x0 /\ (xl + xr) / 2 - 1 <= IZR x0 <= (xl + xr) / 2.
Proof.
  intros Hlr Hc Hw Ha Hd. apply obj_coords_same_camera; trivial. lra.
Qed.

Lemma obj_coords_midpoint_witness :
  exists x0 : Z,
    obj_coords dcam (1045, 3) (648, 9) =
    Ok (x0, int ((3 + 9) / 2),
        d dcam * width cam / (2 * tan (aov cam / 2) * (1045 - 648))) /\
    0 <= IZR x0 /\ (1045 + 648) / 2 - 1 <= IZR x0 <= (1045 + 648) / 2.
Proof.
  apply (obj_coords_midpoint dcam 1045 3 648 9 eq_refl eq_refl).
  - simpl; lra.
  - simpl; unfold radians; pose proof PI_RGT_0; lra.
  - simpl; lra.
  - split; simpl; lra.
  - split; simpl; lra.
  - lra.
Defined.

(** X13.  With one camera model in all three places, the pixel returned by
    [obj_coords] is again inside the frame, so [to_central] of the centre
    camera accepts it. *)
Theorem obj_coords_in_frame
  (m : DoubleCameraModel) (l r : coords) (x0 y0 : Z) (D : R) :
  left m = right m -> center m = left m ->
  0 < width (left m) -> 0 < aov (left m) < PI -> 0 < d m ->
  obj_coords m l r = Ok (x0, y0, D) ->
  in_frame (center m) (IZR x0, IZR y0) /\
  exists p, to_central (center m) (IZR x0) (IZR y0) = Ok p.
Proof.
  intros Hlr Hc Hw Ha Hd H. destruct l as [xl yl], r as [xr yr].
  pose proof H as [(tl & tr & Htl & Htr & Hpos & _)%obj_dist_inv _]%obj_coords_inv.
  apply obj_angle_inv in Htl as (Hl & _ & ->).
  apply obj_angle_inv in Htr as (Hr & _ & ->).
  rewrite <- Hlr in Hr, Hpos. simpl in Hl, Hr, Hpos.
  destruct (bearing_diff_same_camera (left m) xl xr Hw Ha) as [Hk Hdiff].
  rewrite Hdiff in Hpos. assert (Hlt : xr < xl) by nra.
  destruct (obj_coords_same_camera m xl yl xr yr Hlr Hc Hw Ha) as (z & Hz & Hz0 & Hzm);
    trivial; try lra.
  rewrite Hz in H. injection H as <- <- _.
  destruct Hl as [Hxl Hyl], Hr as [Hxr Hyr]. simpl in *.
  assert (Hin : in_frame (center m) (IZR z, IZR (int ((yl + yr) / 2)))).
  { rewrite Hc. split; simpl; [lra|apply int_in_range; lra]. }
  split; [exact Hin|]. eexists. apply to_central_ok; apply Hin.
Qed.

Lemma obj_coords_in_frame_witness :
  exists p, to_central cam 846 0 = Ok p.
Proof.
  assert (Hw : 0 < width (left dcam)) by (simpl; lra).
  assert (Ha : 0 < aov (left dcam) < PI)
    by (simpl; unfold radians; pose proof PI_RGT_0; lra).
  assert (Hd : 0 < d dcam) by (simpl; lra).
  exact (proj2 (obj_coords_in_frame dcam (1045, 0) (648, 0) 846 0 _
                  eq_refl eq_refl Hw Ha Hd obj_coords_end_to_end)).
Defined.

(** X14.  The error estimate in terms of the depth.  Whenever [obj_dist]
    returns [D] (baseline positive), [obj_dist_err] returns
    [D ^ 2 / d * sqrt (el ^ 2 + er ^ 2)], with [el] and [er] the one-pixel
    bearing errors of the two cameras: the error grows with the square of
    the depth. *)
Theorem obj_dist_err_quadratic (m : DoubleCameraModel) (l r : coords) (D : R) :
  0 < d m -> obj_dist m l r = Ok D ->
  exists el er,
    obj_angle_err (left m) = Ok el /\ obj_angle_err (right m) = Ok er /\
    obj_dist_err m l r = Ok (D ^ 2 / d m * sqrt (el ^ 2 + er ^ 2)).
Proof.
  intros Hd (tl & tr & Htl & Htr & Hpos & ->)%obj_dist_inv.
  pose proof Htl as (_ & Hwl & _)%obj_angle_inv.
  pose proof Htr as (_ & Hwr & _)%obj_angle_inv.
  eexists _, _. split; [now apply obj_angle_err_ok|].
  split; [now apply obj_angle_err_ok|].
  rewrite (obj_dist_err_ok m l r tl tr Htl Htr) by (trivial; lra).
  f_equal.
  set (el := tan (aov (left m) / 2) * 2 / width (left m)).
  set (er := tan (aov (right m) / 2) * 2 / width (right m)).
  set (k := d m / (tl - tr) ^ 2).
  assert (Hk : 0 <= k).
  { unfold k. apply Rlt_le, Rdiv_lt_0_compat; [lra|]. apply pow_lt. lra. }
  replace ((d m / (tl - tr)) ^ 2 / d m) with k by (unfold k; field; lra).
  replace ((k * el) ^ 2 + (k * er) ^ 2) with (k ^ 2 * (el ^ 2 + er ^ 2)) by ring.
  rewrite sqrt_mult.
  - now rewrite sqrt_pow2.
  - apply pow2_ge_0.
  - pose proof (pow2_ge_0 el). pose proof (pow2_ge_0 er). lra.
Qed.

Lemma obj_dist_err_quadratic_witness :
  exists D el er,
    obj_dist dcam (1045, 0) (648, 0) = Ok D /\
    obj_angle_err cam = Ok el /\ obj_angle_err cam = Ok er /\
    obj_dist_err dcam (1045, 0) (648, 0) = Ok (D ^ 2 / d dcam * sqrt (el ^ 2 + er ^ 2)).
Proof.
  assert (Hd : 0 < d dcam) by (simpl; lra).
  assert (HD := obj_dist_dcam 1045 0 648 0 ltac:(lra) ltac:(lra) ltac:(lra)
                  ltac:(lra) ltac:(lra)).
  destruct (obj_dist_err_quadratic dcam _ _ _ Hd HD) as (el & er & Hel & Her & Herr).
  eexists _, el, er. split; [exact HD|]. split; [exact Hel|]. split; [exact Her|exact Herr].
Defined.

(** X15.  What [obj_dist_err] can raise.  With cameras of positive width it
    raises exactly when one of the two pixel pairs is outside its frame,
    and then a range error; it never raises the geometry error, and for two
    pairs inside the frames with equal bearings it meets the division by
    zero. *)
Theorem obj_dist_err_errors (m : DoubleCameraModel) (l r : coords) :
  0 < width (left m) -> 0 < width (right m) ->
  ((exists e, obj_dist_err m l r = Raise e) <->
   ~ in_frame (left m) l \/ ~ in_frame (right m) r) /\
  (forall e, obj_dist_err m l r = Raise e -> RangeError e /\ e <> GeometryError) /\
  (forall tl, obj_angle (left m) (fst l) (snd l) = Ok tl ->
              obj_angle (right m) (fst r) (snd r) = Ok tl ->
              obj_dist_err m l r = NonFinite).
Proof.
  intros Hwl Hwr.
  assert (Hwl0 : width (left m) <> 0) by lra.
  assert (Hwr0 : width (right m) <> 0) by lra.
  split; [|split].
  - destruct l as [xl yl], r as [xr yr]. split.
    + intros [e He].
      destruct (in_frame_dec (left m) (xl, yl)) as [Hl|Hl]; [|tauto].
      destruct (in_frame_dec (right m) (xr, yr)) as [Hr|Hr]; [|tauto].
      exfalso.
      pose proof (obj_angle_ok (left m) xl yl Hwl0 Hl) as Htl.
      pose proof (obj_angle_ok (right m) xr yr Hwr0 Hr) as Htr.
      set (tl := _ / width (left m)) in Htl. set (tr := _ / width (right m)) in Htr.
      destruct (Req_dec_T (tl - tr) 0) as [E|E].
      * rewrite (obj_dist_err_parallel m (xl, yl) (xr, yr) tl tr Htl Htr E) in He
          by assumption.
        discriminate.
      * rewrite (obj_dist_err_ok m (xl, yl) (xr, yr) tl tr Htl Htr E) in He
          by assumption.
        discriminate.
    + intros Hout. unfold obj_dist_err. simpl.
      destruct (in_frame_dec (left m) (xl, yl)) as [Hl|Hl].
      * rewrite (obj_angle_ok (left m) xl yl Hwl0 Hl). cbn [bind].
        destruct Hout as [Hout|Hout]; [contradiction|].
        destruct (obj_angle_out_of_frame _ _ _ Hout) as (e & He & _).
        rewrite He. now exists e.
      * destruct (obj_angle_out_of_frame _ _ _ Hl) as (e & He & _).
        rewrite He. now exists e.
  - intros e He. apply obj_dist_err_Raise_inv in He. split; [exact He|].
    now apply RangeError_not_GeometryError.
  - intros tl Htl Htr.
    apply (obj_dist_err_parallel m l r tl tl Htl Htr); trivial. lra.
Qed.

Lemma obj_dist_err_errors_witness :
  (exists e, obj_dist_err dcam (1045, 0) (648, 1081) = Raise e) /\
  obj_dist_err dcam (648, 0) (648, 9) = NonFinite.
Proof.
  assert (Hw : 0 < width cam) by (simpl; lra).
  destruct (obj_dist_err_errors dcam (1045, 0) (648, 1081) Hw Hw) as (Hiff & _).
  destruct (obj_dist_err_errors dcam (648, 0) (648, 9) Hw Hw) as (_ & _ & Hpar).
  split.
  - apply Hiff. right. unfold in_frame. simpl. lra.
  - apply (Hpar _ (obj_angle_cam 648 0 ltac:(lra) ltac:(lra))).
    apply (obj_angle_cam 648 9); lra.
Defined.

(** X16.  Left and right cannot be exchanged.  With the same camera model
    on both sides and two pixel pairs inside the frame, [obj_dist] returns a
    depth for at most one of the two orders: if it returns for [(a, b)] it
    raises the geometry error for [(b, a)]; with different abscissas exactly
    one order returns, with equal abscissas both raise. *)
Theorem obj_dist_swap (m : DoubleCameraModel) (a b : coords) :
  left m = right m -> 0 < width (left m) -> 0 < aov (left m) < PI ->
  in_frame (left m) a -> in_frame (left m) b ->
  ((exists D, obj_dist m a b = Ok D) -> obj_dist m b a = Raise GeometryError) /\
  (fst a <> fst b ->
   (exists D, obj_dist m a b = Ok D) \/ (exists D, obj_dist m b a = Ok D)) /\
  (fst a = fst b ->
   obj_dist m a b = Raise GeometryError /\ obj_dist m b a = Raise GeometryError).
Proof.
  intros Hlr Hw Ha HA HB. destruct a as [xa ya], b as [xb yb]. simpl fst.
  assert (Hw0 : width (left m) <> 0) by lra.
  pose proof (obj_angle_ok (left m) xa ya Hw0 HA) as Hta.
  pose proof (obj_angle_ok (left m) xb yb Hw0 HB) as Htb.
  pose proof Hta as Hta'. pose proof Htb as Htb'.
  rewrite Hlr in Hta' at 1. rewrite Hlr in Htb' at 1.
  destruct (bearing_diff_same_camera (left m) xa xb Hw Ha) as [Hk Hab].
  destruct (bearing_diff_same_camera (left m) xb xa Hw Ha) as [_ Hba].
  assert (Hok : forall x y ya yb tx ty,
             obj_angle (left m) x ya = Ok tx -> obj_angle (right m) y yb = Ok ty ->
             0 < tx - ty -> exists D, obj_dist m (x, ya) (y, yb) = Ok D).
  { intros x y y1 y2 tx ty Hx Hy Hpos. eexists.
    now apply (obj_dist_ok m (x, y1) (y, y2) tx ty Hx Hy). }
  repeat split.
  - intros [D HD].
    apply (obj_dist_raises m (xb, yb) (xa, ya) _ _ Htb Hta'). rewrite Hba.
    destruct (Rle_dec (xa - xb) 0) as [Hle|Hgt]; [|nra].
    rewrite (obj_dist_raises m (xa, ya) (xb, yb) _ _ Hta Htb') in HD;
      [discriminate|rewrite Hab; nra].
  - intros Hne. destruct (Rlt_dec xb xa) as [Hlt|Hge].
    + left. apply (Hok _ _ _ _ _ _ Hta Htb'). rewrite Hab. nra.
    + right. apply (Hok _ _ _ _ _ _ Htb Hta'). rewrite Hba. nra.
  - apply (obj_dist_raises m (xa, ya) (xb, yb) _ _ Hta Htb'). rewrite Hab, H. nra.
  - apply (obj_dist_raises m (xb, yb) (xa, ya) _ _ Htb Hta'). rewrite Hba, H. nra.
Qed.

Lemma obj_dist_swap_witness :
  (exists D, obj_dist dcam (1045, 0) (648, 0) = Ok D) /\
  obj_dist dcam (648, 0) (1045, 0) = Raise GeometryError.
Proof.
  assert (Hw : 0 < width (left dcam)) by (simpl; lra).
  assert (Ha : 0 < aov (left dcam) < PI)
    by (simpl; unfold radians; pose proof PI_RGT_0; lra).
  assert (HA : in_frame (left dcam) (1045, 0)) by (split; simpl; lra).
  assert (HB : in_frame (left dcam) (648, 0)) by (split; simpl; lra).
  destruct (obj_dist_swap dcam (1045, 0) (648, 0) eq_refl Hw Ha HA HB) as (Hswap & _).
  assert (HD : exists D, obj_dist dcam (1045, 0) (648, 0) = Ok D)
    by (eexists; apply obj_dist_dcam; lra).
  split; [exact HD|exact (Hswap HD)].
Defined.

(** ** The script: further properties *)

Lemma to_central_negative (c : CameraModel) (x0 y0 : R) :
  x0 < 0 \/ y0 < 0 -> to_central c x0 y0 = Raise (ValueError msg_negative).
Proof.
  intros H. unfold to_central.
  destruct (Rlt_dec x0 0); [reflexivity|].
  destruct (Rlt_dec y0 0); [reflexivity|]. lra.
Qed.

Lemma to_central_exceeds (c : CameraModel) (x0 y0 : R) :
  0 <= x0 -> 0 <= y0 -> x0 > width c \/ y0 > height c ->
  to_central c x0 y0 = Raise (ValueError msg_exceeds).
Proof.
  intros Hx Hy H. unfold to_central.
  destruct (Rlt_dec x0 0); [lra|]. destruct (Rlt_dec y0 0); [lra|].
  destruct (Rgt_dec x0 (width c)); [reflexivity|].
  destruct (Rgt_dec y0 (height c)); [reflexivity|]. lra.
Qed.

Lemma obj_angle_to_central_raise (c : CameraModel) (x0 y0 : R) (e : exn) :
  to_central c x0 y0 = Raise e -> obj_angle c x0 y0 = Raise e.
Proof. intros H. unfold obj_angle. now rewrite H. Qed.

Lemma obj_coords_left_raise (m : DoubleCameraModel) (l r : coords) (e : exn) :
  obj_angle (left m) (fst l) (snd l) = Raise e -> obj_coords m l r = Raise e.
Proof. intros H. unfold obj_coords, obj_dist. now rewrite H. Qed.

Lemma obj_coords_right_raise (m : DoubleCameraModel) (l r : coords) (tl : R) (e : exn) :
  obj_angle (left m) (fst l) (snd l) = Ok tl ->
  obj_angle (right m) (fst r) (snd r) = Raise e -> obj_coords m l r = Raise e.
Proof. intros Hl Hr. unfold obj_coords, obj_dist. now rewrite Hl, Hr. Qed.

Lemma obj_coords_not_cross (m : DoubleCameraModel) (l r : coords) (tl tr : R) :
  obj_angle (left m) (fst l) (snd l) = Ok tl ->
  obj_angle (right m) (fst r) (snd r) = Ok tr ->
  tl - tr <= 0 -> obj_coords m l r = Raise GeometryError.
Proof.
  intros Hl Hr Hle. unfold obj_coords.
  now rewrite (obj_dist_raises m l r tl tr Hl Hr Hle).
Qed.

Lemma obj_dist_Raise_inv (m : DoubleCameraModel) (l r : coords) (e : exn) :
  obj_dist m l r = Raise e -> RangeError e \/ e = GeometryError.
Proof.
  unfold obj_dist. intros H.
  destruct (obj_angle (left m) (fst l) (snd l)) as [tl| |] eqn:El; cbn [bind] in H.
  2:{ injection H as ->. left. now apply obj_angle_Raise_inv in El. }
  2: discriminate.
  destruct (obj_angle (right m) (fst r) (snd r)) as [tr| |] eqn:Er; cbn [bind] in H.
  2:{ injection H as ->. left. now apply obj_angle_Raise_inv in Er. }
  2: discriminate.
  destruct (Rle_dec (tl - tr) 0).
  - injection H as <-. now right.
  - now apply np_div_not_raise in H.
Qed.

Lemma obj_coords_Raise_inv (m : DoubleCameraModel) (l r : coords) (e : exn) :
  obj_coords m l r = Raise e -> RangeError e \/ e = GeometryError.
Proof.
  unfold obj_coords. intros H.
  destruct (obj_dist m l r) as [D| |] eqn:E; cbn [bind] in H.
  2:{ injection H as ->. now apply obj_dist_Raise_inv in E. }
  2: discriminate.
  destruct (obj_angle (left m) (fst l) (snd l)) as [tl| |] eqn:El; cbn [bind] in H.
  2:{ injection H as ->. left. now apply obj_angle_Raise_inv in El. }
  2: discriminate.
  destruct (np_div (d m / 2) D) eqn:E1; cbn [bind] in H;
    [|now apply np_div_not_raise in E1|discriminate].
  destruct (np_div _ (tan _)) eqn:E2; cbn [bind] in H;
    [|now apply np_div_not_raise in E2|discriminate].
  destruct (to_default _ _ _). discriminate.
Qed.

Lemma int_half (z : Z) : (0 <= z)%Z -> int (IZR z / 2) = (z / 2)%Z.
Proof.
  intros Hz. pose proof (Z.div_mod z 2 ltac:(lia)) as Hdm.
  pose proof (Z.mod_pos_bound z 2 ltac:(lia)) as [Hlo Hhi].
  assert (HR : IZR z = 2 * IZR (z / 2) + IZR (z mod 2))
    by (rewrite <- mult_IZR, <- plus_IZR; now f_equal).
  apply IZR_le in Hz, Hlo. apply IZR_lt in Hhi.
  apply int_nonneg; lra.
Qed.

Section ScriptFacts.

Variable py_int : string -> option Z.

Lemma ints_Some (tokens : list string) (zs : list Z) :
  ints py_int tokens = Some zs ->
  List.length zs = List.length tokens /\
  forall t, In t tokens -> py_int t <> None.
Proof.
  revert zs. induction tokens as [|t rest IH]; intros zs H; simpl in H.
  - injection H as <-. split; [reflexivity|]. intros t [].
  - destruct (py_int t) as [z|] eqn:Et; [|discriminate].
    destruct (ints py_int rest) as [zs'|]; [|discriminate].
    injection H as <-. destruct (IH zs' eq_refl) as [Hlen Hall].
    split; [simpl; now rewrite Hlen|].
    intros t' [<-|Hin]; [now rewrite Et|now apply Hall].
Qed.

Lemma ints_None (tokens : list string) :
  ints py_int tokens = None -> exists t, In t tokens /\ py_int t = None.
Proof.
  induction tokens as [|t rest IH]; simpl; [discriminate|].
  destruct (py_int t) as [z|] eqn:Et.
  - destruct (ints py_int rest) as [zs'|]; [discriminate|].
    intros _. destruct (IH eq_refl) as (t' & Hin & Ht'). exists t'. auto.
  - intros _. exists t. auto.
Qed.

Lemma reshape22_None (zs : list Z) :
  reshape22 zs = None <-> List.length zs <> 4%nat.
Proof.
  destruct zs as [|a [|b [|c [|e [|f zs]]]]]; simpl; split;
    congruence || (intros; lia) || discriminate.
Qed.

Lemma print_coords_not_integer (m : DoubleCameraModel) (l r : coords) :
  print_coords m l r <> PrintMessage msg_not_integer.
Proof.
  unfold print_coords.
  destruct (obj_coords m l r) as [[[x0 y0] D]|[msg]|] eqn:E; try discriminate.
  apply obj_coords_Raise_inv in E as [[E|E]|E]; injection E as ->; discriminate.
Qed.

End ScriptFacts.

(** X17.  The message [Entered coordinates must be integer.] is printed
    exactly when a token is refused by [int] or when the line has not four
    tokens; so it is also what four-less or four-more good integers get,
    and no entry of four integers ever gets it. *)
Theorem manual_entry_malformed
  (py_int : string -> option Z) (tokens : list string) :
  manual_entry py_int tokens = PrintMessage msg_not_integer <->
  (List.length tokens <> 4%nat \/ exists t, In t tokens /\ py_int t = None).
Proof.
  unfold manual_entry.
  destruct (ints py_int tokens) as [zs|] eqn:E.
  - apply ints_Some in E as [Hlen Hall].
    destruct (reshape22 zs) as [[l r]|] eqn:Er.
    + assert (Hfour : List.length zs = 4%nat).
      { destruct (Nat.eq_dec (List.length zs) 4) as [|Hne]; [assumption|].
        apply reshape22_None in Hne. congruence. }
      split.
      * intros H. now apply print_coords_not_integer in H.
      * intros [Hne|(t & Hin & Ht)]; [lia|]. now apply Hall in Hin.
    + apply reshape22_None in Er. split; [|reflexivity].
      intros _. left. lia.
  - split; [|reflexivity]. intros _. right. now apply ints_None.
Qed.

Lemma manual_entry_malformed_witness :
  let py_int := fun t : string => if String.eqb t "7" then Some 7%Z else None in
  manual_entry py_int ["7"; "7"; "7"]%string = PrintMessage msg_not_integer /\
  manual_entry py_int ["7"; "7"; "x"; "7"]%string = PrintMessage msg_not_integer.
Proof.
  intros py_int. split.
  - apply (manual_entry_malformed py_int). left. simpl. lia.
  - apply (manual_entry_malformed py_int). right.
    exists "x"%string. split; [simpl; tauto|reflexivity].
Defined.

Lemma half_bounds (n : Z) : (2 * (n / 2) <= n <= 2 * (n / 2) + 2)%Z.
Proof.
  pose proof (Z.div_mod n 2 ltac:(lia)).
  pose proof (Z.mod_pos_bound n 2 ltac:(lia)). lia.
Qed.

(** X18.  The whole behaviour of the script on an entry of four integers
    [xl yl xr yr], in integer terms.  The left pair is checked first, then
    the right pair, each for a negative value and then for a value beyond
    2048 by 1080; then [xl <= xr] gives the message that the lines of sight
    do not cross; otherwise the script prints a pixel and a depth: the
    abscissa [x0] with [2 * x0 <= xl + xr <= 2 * x0 + 2], that is the
    midpoint or the integer just below it, the ordinate [(yl + yr) / 2] and
    the depth [100 * 1024 / (tan (aov / 2) * (xl - xr))]. *)
Theorem manual_entry_table
  (py_int : string -> option Z) (tokens : list string) (xl yl xr yr : Z) :
  ints py_int tokens = Some [xl; yl; xr; yr] ->
  exists x0 : Z,
    (2 * x0 <= xl + xr <= 2 * x0 + 2)%Z /\
    manual_entry py_int tokens =
    if ((xl <? 0)%Z || (yl <? 0)%Z)%bool then PrintMessage msg_negative
    else if ((2048 <? xl)%Z || (1080 <? yl)%Z)%bool then PrintMessage msg_exceeds
    else if ((xr <? 0)%Z || (yr <? 0)%Z)%bool then PrintMessage msg_negative
    else if ((2048 <? xr)%Z || (1080 <? yr)%Z)%bool then PrintMessage msg_exceeds
    else if (xl <=? xr)%Z then PrintMessage msg_not_cross
    else PrintCoords x0 ((yl + yr) / 2)
           (100 * 1024 / (tan (aov cam / 2) * IZR (xl - xr))).
Proof.
  intros H. unfold manual_entry. rewrite H. cbn [reshape22]. unfold print_coords.
  pose proof tan_half_cam as Ht.
  destruct (Z.ltb_spec xl 0) as [Hxl|Hxl]; cbn [orb].
  { exists ((xl + xr) / 2)%Z. split; [apply half_bounds|].
    rewrite (obj_coords_left_raise dcam _ _ (ValueError msg_negative)); [reflexivity|].
    apply obj_angle_to_central_raise, to_central_negative.
    left. simpl. now apply IZR_lt in Hxl. }
  destruct (Z.ltb_spec yl 0) as [Hyl|Hyl]; cbn [orb].
  { exists ((xl + xr) / 2)%Z. split; [apply half_bounds|].
    rewrite (obj_coords_left_raise dcam _ _ (ValueError msg_negative)); [reflexivity|].
    apply obj_angle_to_central_raise, to_central_negative.
    right. simpl. now apply IZR_lt in Hyl. }
  apply IZR_le in Hxl, Hyl.
  destruct (Z.ltb_spec 2048 xl) as [Hxl'|Hxl']; cbn [orb].
  { exists ((xl + xr) / 2)%Z. split; [apply half_bounds|].
    rewrite (obj_coords_left_raise dcam _ _ (ValueError msg_exceeds)); [reflexivity|].
    apply obj_angle_to_central_raise, to_central_exceeds; trivial.
    left. simpl. apply IZR_lt in Hxl'. lra. }
  destruct (Z.ltb_spec 1080 yl) as [Hyl'|Hyl']; cbn [orb].
  { exists ((xl + xr) / 2)%Z. split; [apply half_bounds|].
    rewrite (obj_coords_left_raise dcam _ _ (ValueError msg_exceeds)); [reflexivity|].
    apply obj_angle_to_central_raise, to_central_exceeds; trivial.
    right. simpl. apply IZR_lt in Hyl'. lra. }
  apply IZR_le in Hxl', Hyl'.
  assert (Hl := obj_angle_cam (IZR xl) (IZR yl) ltac:(lra) ltac:(lra)).
  destruct (Z.ltb_spec xr 0) as [Hxr|Hxr]; cbn [orb].
  { exists ((xl + xr) / 2)%Z. split; [apply half_bounds|].
    rewrite (obj_coords_right_raise dcam (IZR xl, IZR yl) (IZR xr, IZR yr) _ (ValueError msg_negative) Hl); [reflexivity|].
    apply obj_angle_to_central_raise, to_central_negative.
    left. simpl. now apply IZR_lt in Hxr. }
  destruct (Z.ltb_spec yr 0) as [Hyr|Hyr]; cbn [orb].
  { exists ((xl + xr) / 2)%Z. split; [apply half_bounds|].
    rewrite (obj_coords_right_raise dcam (IZR xl, IZR yl) (IZR xr, IZR yr) _ (ValueError msg_negative) Hl); [reflexivity|].
    apply obj_angle_to_central_raise, to_central_negative.
    right. simpl. now apply IZR_lt in Hyr. }
  apply IZR_le in Hxr, Hyr.
  destruct (Z.ltb_spec 2048 xr) as [Hxr'|Hxr']; cbn [orb].
  { exists ((xl + xr) / 2)%Z. split; [apply half_bounds|].
    rewrite (obj_coords_right_raise dcam (IZR xl, IZR yl) (IZR xr, IZR yr) _ (ValueError msg_exceeds) Hl); [reflexivity|].
    apply obj_angle_to_central_raise, to_central_exceeds; trivial.
    left. simpl. apply IZR_lt in Hxr'. lra. }
  destruct (Z.ltb_spec 1080 yr) as [Hyr'|Hyr']; cbn [orb].
  { exists ((xl + xr) / 2)%Z. split; [apply half_bounds|].
    rewrite (obj_coords_right_raise dcam (IZR xl, IZR yl) (IZR xr, IZR yr) _ (ValueError msg_exceeds) Hl); [reflexivity|].
    apply obj_angle_to_central_raise, to_central_exceeds; trivial.
    right. simpl. apply IZR_lt in Hyr'. lra. }
  apply IZR_le in Hxr', Hyr'.
  assert (Hr := obj_angle_cam (IZR xr) (IZR yr) ltac:(lra) ltac:(lra)).
  destruct (Z.leb_spec xl xr) as [Hle|Hlt].
  - exists ((xl + xr) / 2)%Z. split; [apply half_bounds|].
    rewrite (obj_coords_not_cross dcam (IZR xl, IZR yl) (IZR xr, IZR yr) _ _ Hl Hr);
      [reflexivity|].
    apply IZR_le in Hle. set (t := tan (aov cam / 2)) in *. simpl. nra.
  - apply IZR_lt in Hlt.
    destruct (obj_coords_same_camera dcam (IZR xl) (IZR yl) (IZR xr) (IZR yr)
                eq_refl eq_refl) as (z & Hz & _ & Hlo & Hhi);
      try (simpl; lra); try (split; simpl; lra).
    { simpl. unfold radians. pose proof PI_RGT_0. lra. }
    exists z. split.
    + split; apply le_IZR; rewrite ?plus_IZR, ?mult_IZR; lra.
    + rewrite Hz. rewrite <- plus_IZR, <- minus_IZR, int_half.
      * f_equal. change (left dcam) with cam. simpl width. simpl d.
        assert (Hne : IZR (xl - xr) <> 0) by (rewrite minus_IZR; lra).
        field. split; [exact Hne|lra].
      * apply le_IZR. rewrite plus_IZR. lra.
Qed.

Lemma manual_entry_table_witness :
  let py_int := fun t : string =>
    if String.eqb t "1045" then Some 1045%Z
    else if String.eqb t "648" then Some 648%Z
    else if String.eqb t "0" then Some 0%Z else None in
  (exists x0 : Z,
     (2 * x0 <= 1045 + 648 <= 2 * x0 + 2)%Z /\
     manual_entry py_int ["1045"; "0"; "648"; "0"]%string =
       PrintCoords x0 0 (100 * 1024 / (tan (aov cam / 2) * IZR (1045 - 648)))) /\
  manual_entry py_int ["648"; "0"; "1045"; "0"]%string = PrintMessage msg_not_cross.
Proof.
  intros py_int. split.
  - exact (manual_entry_table py_int ["1045"; "0"; "648"; "0"]%string 1045 0 648 0 eq_refl).
  - destruct (manual_entry_table py_int ["648"; "0"; "1045"; "0"]%string 648 0 1045 0 eq_refl)
      as (x0 & _ & Hm).
    exact Hm.
Defined.
